(** * QSerialDevice: a line-oriented serial device session

    Shallow embedding of [common/QSerialDevice.py].  The Python class
    [QSerialDevice] extends Qt's [QSerialPort]; its methods are embedded as
    computations in a state-and-exception monad over a record that holds the
    Python attributes of the object, the part of the [QSerialPort] state the
    methods touch, and what the outside world can observe (bytes written,
    signals emitted, log records, ports opened and closed). *)

From Stdlib Require Import ZArith List Bool Lia String.
Import ListNotations.
Open Scope Z_scope.

(** ** Bytes and text *)

(** A byte is an integer in [0, 256); a Python [str] is its sequence of
    Unicode code points. *)
Definition bytes := list Z.
Definition str := list Z.

Fixpoint bytes_eqb (a b : list Z) : bool :=
  match a, b with
  | [], [] => true
  | x :: a', y :: b' => (x =? y) && bytes_eqb a' b'
  | _, _ => false
  end.

(** [startswith hay needle]: [needle] is a prefix of [hay]. *)
Fixpoint startswith (hay needle : list Z) : bool :=
  match needle, hay with
  | [], _ => true
  | _ :: _, [] => false
  | n :: needle', h :: hay' => (h =? n) && startswith hay' needle'
  end.

(** [QByteArray.contains(ba)] and Python's [in] on [str]: the needle occurs
    somewhere as a contiguous run; the empty needle occurs everywhere. *)
Fixpoint contains (hay needle : list Z) : bool :=
  startswith hay needle ||
  match hay with
  | [] => false
  | _ :: hay' => contains hay' needle
  end.

(** The bytes [QByteArray.trimmed()] strips: tab, newline, vertical tab,
    form feed, carriage return, space. *)
Definition isspace (b : Z) : bool :=
  ((9 <=? b) && (b <=? 13)) || (b =? 32).

Fixpoint ltrim (l : list Z) : list Z :=
  match l with
  | [] => []
  | b :: l' => if isspace b then ltrim l' else l
  end.

Definition rtrim (l : list Z) : list Z := rev (ltrim (rev l)).

(** [QByteArray.trimmed()]. *)
Definition trimmed (l : bytes) : bytes := rtrim (ltrim l).

(** ** UTF-8, the codec of [str.encode()] and [bytes.decode()] *)

Definition is_surrogate (c : Z) : bool := (0xD800 <=? c) && (c <=? 0xDFFF).

(** One code point to its UTF-8 bytes; [None] where Python raises
    [UnicodeEncodeError] (lone surrogates) and off the code space. *)
Definition encode_char (c : Z) : option bytes :=
  if c <? 0 then None
  else if c <? 0x80 then Some [c]
  else if c <? 0x800 then Some [0xC0 + c / 64; 0x80 + c mod 64]
  else if c <? 0x10000 then
    if is_surrogate c then None
    else Some [0xE0 + c / 4096; 0x80 + (c / 64) mod 64; 0x80 + c mod 64]
  else if c <? 0x110000 then
    Some [0xF0 + c / 262144; 0x80 + (c / 4096) mod 64;
          0x80 + (c / 64) mod 64; 0x80 + c mod 64]
  else None.

Fixpoint encode (s : str) : option bytes :=
  match s with
  | [] => Some []
  | c :: s' =>
    match encode_char c, encode s' with
    | Some b, Some bs => Some (b ++ bs)
    | _, _ => None
    end
  end.

Definition is_cont (b : Z) : bool := (0x80 <=? b) && (b <? 0xC0).

(** Strict UTF-8 decoding; [None] where Python raises [UnicodeDecodeError]:
    a stray continuation byte, a truncated sequence, an overlong form, an
    encoded surrogate, a value past U+10FFFF, a byte that starts nothing. *)
Fixpoint decode (bs : bytes) : option str :=
  match bs with
  | [] => Some []
  | b0 :: r0 =>
    if b0 <? 0 then None
    else if b0 <? 0x80 then option_map (cons b0) (decode r0)
    else if b0 <? 0xC0 then None
    else if b0 <? 0xE0 then
      match r0 with
      | b1 :: r1 =>
        let c := (b0 - 0xC0) * 64 + (b1 - 0x80) in
        if is_cont b1 && (0x80 <=? c)
        then option_map (cons c) (decode r1) else None
      | _ => None
      end
    else if b0 <? 0xF0 then
      match r0 with
      | b1 :: b2 :: r2 =>
        let c := (b0 - 0xE0) * 4096 + (b1 - 0x80) * 64 + (b2 - 0x80) in
        if is_cont b1 && is_cont b2 && (0x800 <=? c) && negb (is_surrogate c)
        then option_map (cons c) (decode r2) else None
      | _ => None
      end
    else if b0 <? 0xF8 then
      match r0 with
      | b1 :: b2 :: b3 :: r3 =>
        let c := (b0 - 0xF0) * 262144 + (b1 - 0x80) * 4096
                 + (b2 - 0x80) * 64 + (b3 - 0x80) in
        if is_cont b1 && is_cont b2 && is_cont b3
           && (0x10000 <=? c) && (c <? 0x110000)
        then option_map (cons c) (decode r3) else None
      | _ => None
      end
    else None
  end.

(** Text written as a Rocq string literal, for examples. *)
Fixpoint text (s : string) : str :=
  match s with
  | EmptyString => []
  | String a s' => Z.of_nat (Ascii.nat_of_ascii a) :: text s'
  end.


(** ** Exceptions and the session monad *)

(** The Python exceptions the methods can raise.  [Unfinished] is not a
    Python exception: it marks a loop of the model that used up its bound
    (see [getData_finishes]: it never happens). *)
Inductive exn : Type :=
| ValueError (msg : string)
| TypeError
| UnicodeEncodeError
| UnicodeDecodeError
| Unfinished.

Inductive outcome (A : Type) : Type :=
| Ok (a : A)
| Raise (e : exn).
Arguments Ok {A} a.
Arguments Raise {A} e.

(** ** The world outside the object *)

(** [QSerialPortInfo]: what the host reports for one endpoint
    ([systemLocation()], [isBusy()]) together with the fact of the host that
    [open()] reveals: whether opening the endpoint succeeds. *)
Record QSerialPortInfo : Type := mkPortInfo {
  systemLocation : string;
  isBusy : bool;
  opens : bool
}.

Record LineSettings : Type := mkLine {
  baudrate : Z;
  databits : Z;
  parity : Z;
  stopbits : Z
}.

Inductive Level : Type := DEBUG | INFO | WARNING | ERROR.

(** The log records of the module, one constructor per format string. *)
Inductive Msg : Type :=
| NoSerialPortSpecified
| SettingUp (name : string)
| PortIsBusy (name : string)
| CouldNotOpenPort (name : string)
| ClearedBytes (tmp : bytes)
| DeviceFoundAt (name : string)
| DeviceNotConnectedTo (name : string)
| NoSerialPortsDetected
| DataNotSent (data : str)
| DataSent (data : str)
| DataReceived
| EOLReceived
| GetsTimedOut
| GetsReceived (n : nat) (s : str)
| CannotHandshakeAsync.

(** The slots connected to [readyRead]; the class connects only its own
    [receive]. *)
Inductive Slot : Type := SlotReceive.

Inductive PortOp : Type :=
| Opened (name : string)
| Closed (name : string).

(** ** The object *)

Record QSerialDevice : Type := mkDevice {
  (* attributes set by __init__ *)
  eol : str;
  manufacturer : string;
  line : LineSettings;
  timeout : Z;
  buffer : bytes;
  _sync : bool;
  (* the QSerialPort underneath *)
  port : option QSerialPortInfo;
  portLine : LineSettings;
  isOpen : bool;
  rx : bytes;                       (* received, not yet read *)
  readyRead : list Slot;            (* connections of the signal *)
  (* the host and the peer *)
  availablePorts : list QSerialPortInfo;
  incoming : list (option bytes);   (* what each coming wait for input meets:
                                       bytes, or silence for the whole timeout;
                                       after the script, silence *)
  acks : list bool;                 (* whether each coming wait for output
                                       sees the bytes leave in time *)
  (* what the methods have handed on *)
  written : list bytes;             (* blocks [write] has taken for output *)
  emitted : list str;               (* dataReady emissions *)
  log : list (Level * Msg);
  portOps : list PortOp
}.

Definition M (A : Type) : Type := QSerialDevice -> outcome A * QSerialDevice.

Definition ret {A} (a : A) : M A := fun st => (Ok a, st).
Definition raise {A} (e : exn) : M A := fun st => (Raise e, st).
Definition bind {A B} (m : M A) (k : A -> M B) : M B :=
  fun st =>
    match m st with
    | (Ok a, st') => k a st'
    | (Raise e, st') => (Raise e, st')
    end.

(** [try: m  except Exception: pass]. *)
Definition try_pass (m : M unit) : M unit :=
  fun st =>
    match m st with
    | (Ok a, st') => (Ok a, st')
    | (Raise Unfinished, st') => (Raise Unfinished, st')
    | (Raise _, st') => (Ok tt, st')
    end.

Declare Scope session_scope.
Delimit Scope session_scope with session.
Notation "x <- m ;; k" := (bind m (fun x => k))
  (at level 100, m at next level, right associativity) : session_scope.
Notation "m ;; k" := (bind m (fun _ => k))
  (at level 100, right associativity) : session_scope.
Open Scope session_scope.

Definition get {A} (f : QSerialDevice -> A) : M A := fun st => (Ok (f st), st).
Definition modify (f : QSerialDevice -> QSerialDevice) : M unit :=
  fun st => (Ok tt, f st).

(** Field updates. *)
Definition set_eol (v : _) (st : QSerialDevice) : QSerialDevice :=
  mkDevice v (manufacturer st) (line st) (timeout st) (buffer st) (_sync st) (port st) (portLine st) (isOpen st) (rx st) (readyRead st) (availablePorts st) (incoming st) (acks st) (written st) (emitted st) (log st) (portOps st).
Definition set_manufacturer (v : _) (st : QSerialDevice) : QSerialDevice :=
  mkDevice (eol st) v (line st) (timeout st) (buffer st) (_sync st) (port st) (portLine st) (isOpen st) (rx st) (readyRead st) (availablePorts st) (incoming st) (acks st) (written st) (emitted st) (log st) (portOps st).
Definition set_line (v : _) (st : QSerialDevice) : QSerialDevice :=
  mkDevice (eol st) (manufacturer st) v (timeout st) (buffer st) (_sync st) (port st) (portLine st) (isOpen st) (rx st) (readyRead st) (availablePorts st) (incoming st) (acks st) (written st) (emitted st) (log st) (portOps st).
Definition set_timeout (v : _) (st : QSerialDevice) : QSerialDevice :=
  mkDevice (eol st) (manufacturer st) (line st) v (buffer st) (_sync st) (port st) (portLine st) (isOpen st) (rx st) (readyRead st) (availablePorts st) (incoming st) (acks st) (written st) (emitted st) (log st) (portOps st).
Definition set_buffer (v : _) (st : QSerialDevice) : QSerialDevice :=
  mkDevice (eol st) (manufacturer st) (line st) (timeout st) v (_sync st) (port st) (portLine st) (isOpen st) (rx st) (readyRead st) (availablePorts st) (incoming st) (acks st) (written st) (emitted st) (log st) (portOps st).
Definition set_sync (v : _) (st : QSerialDevice) : QSerialDevice :=
  mkDevice (eol st) (manufacturer st) (line st) (timeout st) (buffer st) v (port st) (portLine st) (isOpen st) (rx st) (readyRead st) (availablePorts st) (incoming st) (acks st) (written st) (emitted st) (log st) (portOps st).
Definition set_port (v : _) (st : QSerialDevice) : QSerialDevice :=
  mkDevice (eol st) (manufacturer st) (line st) (timeout st) (buffer st) (_sync st) v (portLine st) (isOpen st) (rx st) (readyRead st) (availablePorts st) (incoming st) (acks st) (written st) (emitted st) (log st) (portOps st).
Definition set_portLine (v : _) (st : QSerialDevice) : QSerialDevice :=
  mkDevice (eol st) (manufacturer st) (line st) (timeout st) (buffer st) (_sync st) (port st) v (isOpen st) (rx st) (readyRead st) (availablePorts st) (incoming st) (acks st) (written st) (emitted st) (log st) (portOps st).
Definition set_isOpen (v : _) (st : QSerialDevice) : QSerialDevice :=
  mkDevice (eol st) (manufacturer st) (line st) (timeout st) (buffer st) (_sync st) (port st) (portLine st) v (rx st) (readyRead st) (availablePorts st) (incoming st) (acks st) (written st) (emitted st) (log st) (portOps st).
Definition set_rx (v : _) (st : QSerialDevice) : QSerialDevice :=
  mkDevice (eol st) (manufacturer st) (line st) (timeout st) (buffer st) (_sync st) (port st) (portLine st) (isOpen st) v (readyRead st) (availablePorts st) (incoming st) (acks st) (written st) (emitted st) (log st) (portOps st).
Definition set_readyRead (v : _) (st : QSerialDevice) : QSerialDevice :=
  mkDevice (eol st) (manufacturer st) (line st) (timeout st) (buffer st) (_sync st) (port st) (portLine st) (isOpen st) (rx st) v (availablePorts st) (incoming st) (acks st) (written st) (emitted st) (log st) (portOps st).
Definition set_availablePorts (v : _) (st : QSerialDevice) : QSerialDevice :=
  mkDevice (eol st) (manufacturer st) (line st) (timeout st) (buffer st) (_sync st) (port st) (portLine st) (isOpen st) (rx st) (readyRead st) v (incoming st) (acks st) (written st) (emitted st) (log st) (portOps st).
Definition set_incoming (v : _) (st : QSerialDevice) : QSerialDevice :=
  mkDevice (eol st) (manufacturer st) (line st) (timeout st) (buffer st) (_sync st) (port st) (portLine st) (isOpen st) (rx st) (readyRead st) (availablePorts st) v (acks st) (written st) (emitted st) (log st) (portOps st).
Definition set_acks (v : _) (st : QSerialDevice) : QSerialDevice :=
  mkDevice (eol st) (manufacturer st) (line st) (timeout st) (buffer st) (_sync st) (port st) (portLine st) (isOpen st) (rx st) (readyRead st) (availablePorts st) (incoming st) v (written st) (emitted st) (log st) (portOps st).
Definition set_written (v : _) (st : QSerialDevice) : QSerialDevice :=
  mkDevice (eol st) (manufacturer st) (line st) (timeout st) (buffer st) (_sync st) (port st) (portLine st) (isOpen st) (rx st) (readyRead st) (availablePorts st) (incoming st) (acks st) v (emitted st) (log st) (portOps st).
Definition set_emitted (v : _) (st : QSerialDevice) : QSerialDevice :=
  mkDevice (eol st) (manufacturer st) (line st) (timeout st) (buffer st) (_sync st) (port st) (portLine st) (isOpen st) (rx st) (readyRead st) (availablePorts st) (incoming st) (acks st) (written st) v (log st) (portOps st).
Definition set_log (v : _) (st : QSerialDevice) : QSerialDevice :=
  mkDevice (eol st) (manufacturer st) (line st) (timeout st) (buffer st) (_sync st) (port st) (portLine st) (isOpen st) (rx st) (readyRead st) (availablePorts st) (incoming st) (acks st) (written st) (emitted st) v (portOps st).
Definition set_portOps (v : _) (st : QSerialDevice) : QSerialDevice :=
  mkDevice (eol st) (manufacturer st) (line st) (timeout st) (buffer st) (_sync st) (port st) (portLine st) (isOpen st) (rx st) (readyRead st) (availablePorts st) (incoming st) (acks st) (written st) (emitted st) (log st) v.

(** ** Python and Qt primitives the methods call *)

Definition logger (l : Level) (m : Msg) : M unit :=
  modify (fun st => set_log (log st ++ [(l, m)]) st).

(** [s.encode()] and [b.decode()]. *)
Definition py_encode (s : str) : M bytes :=
  match encode s with Some b => ret b | None => raise UnicodeEncodeError end.
Definition py_decode (b : bytes) : M str :=
  match decode b with Some s => ret s | None => raise UnicodeDecodeError end.

(** [while cond: body], where [body] answers [false] on [break].  The bound
    is the model's; at [0] the loop is cut with [Unfinished]. *)
Fixpoint while_ (bound : nat) (cond : M bool) (body : M bool) : M unit :=
  match bound with
  | O => raise Unfinished
  | S n =>
    c <- cond ;;
    if c then (go <- body ;; if go then while_ n cond body else ret tt)
    else ret tt
  end.

Arguments while_ : simpl never.

Definition setPort (p : QSerialPortInfo) : M unit := modify (set_port (Some p)).

(** The four setters of the line, on values the binding takes: a number
    that is no C [int] makes the binding raise [OverflowError], which is
    outside this model (see [c_int]). *)
Definition setBaudRate (v : Z) : M unit :=
  modify (fun st => let l := portLine st in
    set_portLine (mkLine v (databits l) (parity l) (stopbits l)) st).
Definition setDataBits (v : Z) : M unit :=
  modify (fun st => let l := portLine st in
    set_portLine (mkLine (baudrate l) v (parity l) (stopbits l)) st).
Definition setParity (v : Z) : M unit :=
  modify (fun st => let l := portLine st in
    set_portLine (mkLine (baudrate l) (databits l) v (stopbits l)) st).
Definition setStopBits (v : Z) : M unit :=
  modify (fun st => let l := portLine st in
    set_portLine (mkLine (baudrate l) (databits l) (parity l) v) st).

(** [open(QSerialPort.ReadWrite)]: fails on an object that is open already,
    that has no port, or whose endpoint the host refuses.  A port just
    opened has nothing to read: bytes that were waiting on the line reach
    the object with its first wait for input or turn of the event loop, so
    they are the first entries of [incoming]. *)
Definition open : M bool := fun st =>
  if isOpen st then (Ok false, st)
  else match port st with
       | Some p =>
         if opens p
         then (Ok true,
               set_portOps (portOps st ++ [Opened (systemLocation p)])
                 (set_rx [] (set_isOpen true st)))
         else (Ok false, st)
       | None => (Ok false, st)
       end.

(** [close()]: nothing to do on an object that is not open. *)
Definition close : M unit := fun st =>
  if isOpen st
  then (Ok tt,
        set_portOps
          (portOps st ++
           match port st with
           | Some p => [Closed (systemLocation p)]
           | None => []
           end)
          (set_rx [] (set_isOpen false st)))
  else (Ok tt, st).

Definition bytesAvailable : M nat := get (fun st => List.length (rx st)).

Definition readAll : M bytes := fun st => (Ok (rx st), set_rx [] st).

(** [write(data)]: an open port takes the block for output; when the
    bytes leave the port is the business of [waitForBytesWritten] or of the
    event loop. *)
Definition write (data : bytes) : M unit := fun st =>
  if isOpen st then (Ok tt, set_written (written st ++ [data]) st)
  else (Ok tt, st).

(** [waitForBytesWritten(msecs)], for its answer: whether the bytes left
    in time.  The peer is taken to answer after this wait, not during it:
    its bytes are met by the waits for input and the event loop alone. *)
Definition waitForBytesWritten (msecs : Z) : M bool := fun st =>
  if isOpen st
  then match acks st with
       | a :: r => (Ok a, set_acks r st)
       | [] => (Ok false, st)
       end
  else (Ok false, st).

(** [dataReady.emit(data)]. *)
Definition dataReady_emit (data : str) : M unit :=
  modify (fun st => set_emitted (emitted st ++ [data]) st).

(** [readyRead.disconnect()] drops every connection of the signal and raises
    [TypeError] when there is none; [readyRead.connect(slot)] adds one, also
    when the same slot is connected already. *)
Definition readyRead_disconnect : M unit := fun st =>
  match readyRead st with
  | [] => (Raise TypeError, st)
  | _ :: _ => (Ok tt, set_readyRead [] st)
  end.
Definition readyRead_connect (s : Slot) : M unit :=
  modify (fun st => set_readyRead (readyRead st ++ [s]) st).

(** ** The methods of [QSerialDevice] *)

Definition eol_encode : M bytes := e <- get eol ;; py_encode e.

Definition buffer_append (bs : bytes) : M unit :=
  modify (fun st => set_buffer (buffer st ++ bs) st).

(** [receive]: the slot for [readyRead]. *)
Definition receive : M unit :=
  logger DEBUG DataReceived ;;
  bs <- readAll ;;
  buffer_append bs ;;
  b <- get buffer ;;
  e <- eol_encode ;;
  if contains b e then
    logger DEBUG EOLReceived ;;
    b <- get buffer ;;
    data <- py_decode (trimmed b) ;;
    dataReady_emit data ;;
    modify (set_buffer [])
  else ret tt.

Definition run_slot (s : Slot) : M unit :=
  match s with SlotReceive => receive end.

(** The connected slots run in turn.  An exception that leaves a slot is
    handed on as the outcome of the run; under PyQt5 it does not come back
    to the caller of the wait but ends the program. *)
Fixpoint run_slots (l : list Slot) : M unit :=
  match l with
  | [] => ret tt
  | s :: l' => run_slot s ;; run_slots l'
  end.

(** Bytes reach the port: they join the unread bytes and [readyRead] is
    emitted, which runs the connected slots in turn. *)
Definition arrive (bs : bytes) : M unit :=
  modify (fun st => set_rx (rx st ++ bs) st) ;;
  slots <- get readyRead ;;
  run_slots slots.

(** [waitForReadyRead(msecs)]: blocks until new bytes are there and
    [readyRead] has been emitted, or the time is up.  Which of the two
    happens is the peer's script; [msecs] is taken to be a duration (a
    negative one never runs out, one that is no C [int] makes the binding
    raise [OverflowError]: both are outside this model). *)
Definition waitForReadyRead (msecs : Z) : M bool := fun st =>
  if isOpen st
  then match incoming st with
       | Some bs :: r => (arrive bs ;; ret true) (set_incoming r st)
       | None :: r => (Ok false, set_incoming r st)
       | [] => (Ok false, st)
       end
  else (Ok false, st).

(** One turn of the Qt event loop, which drives [receive] in asynchronous
    mode: the next bytes of the peer, if any, reach the port. *)
Definition processEvents : M unit := fun st =>
  if isOpen st
  then match incoming st with
       | Some bs :: r => arrive bs (set_incoming r st)
       | None :: r => (Ok tt, set_incoming r st)
       | [] => (Ok tt, st)
       end
  else (Ok tt, st).

Definition getData_cond : M bool :=
  b <- get buffer ;;
  e <- eol_encode ;;
  ret (negb (contains b e)).

Definition getData_body : M bool :=
  t <- get timeout ;;
  ready <- waitForReadyRead t ;;
  if ready then
    bs <- readAll ;;
    buffer_append bs ;;
    ret true
  else
    logger DEBUG GetsTimedOut ;;
    ret false.

(** [getData].  Every turn of the loop that goes on has taken one entry of
    [incoming], so one more than its length bounds the loop. *)
Definition getData : M str :=
  n <- get (fun st => S (List.length (incoming st))) ;;
  while_ n getData_cond getData_body ;;
  b <- get buffer ;;
  s <- py_decode (trimmed b) ;;
  logger DEBUG (GetsReceived (List.length s) s) ;;
  modify (set_buffer []) ;;
  ret s.

Definition sendData (data : str) : M unit :=
  e <- get eol ;;
  cmd <- py_encode (data ++ e) ;;
  write cmd ;;
  s <- get _sync ;;
  if s then
    t <- get timeout ;;
    sent <- waitForBytesWritten t ;;
    if negb sent then logger WARNING (DataNotSent data)
    else logger DEBUG (DataSent data)
  else logger DEBUG (DataSent data).

Definition handshake (data : str) : M str :=
  s <- get _sync ;;
  if negb s then
    logger ERROR CannotHandshakeAsync ;;
    ret []
  else
    sendData data ;;
    res <- getData ;;
    ret res.

(** The property [sync]: its getter and its setter. *)
Definition sync : M bool := get _sync.

Definition sync_setter (state : bool) : M unit :=
  modify (set_sync state) ;;
  try_pass readyRead_disconnect ;;
  s <- get _sync ;;
  if negb s then readyRead_connect SlotReceive else ret tt.

Section Identify.

(** [identify] is the method subclasses override: any computation on the
    object that answers a boolean. *)
Variable identify : M bool.

Definition setup (portinfo : option QSerialPortInfo) : M bool :=
  match portinfo with
  | None =>
    logger INFO NoSerialPortSpecified ;;
    ret false
  | Some p =>
    let name := systemLocation p in
    logger DEBUG (SettingUp name) ;;
    if isBusy p then
      logger DEBUG (PortIsBusy name) ;;
      ret false
    else
      setPort p ;;
      l <- get line ;;
      setBaudRate (baudrate l) ;;
      setDataBits (databits l) ;;
      setParity (parity l) ;;
      setStopBits (stopbits l) ;;
      ok <- open ;;
      if negb ok then
        logger DEBUG (CouldNotOpenPort name) ;;
        ret false
      else
        n <- bytesAvailable ;;
        (if (0 <? n)%nat
         then tmp <- readAll ;; logger INFO (ClearedBytes tmp)
         else ret tt) ;;
        found <- identify ;;
        if found then
          logger INFO (DeviceFoundAt name) ;;
          ret true
        else
          close ;;
          logger DEBUG (DeviceNotConnectedTo name) ;;
          ret false
  end.

(** [for port in ports: if self.setup(port): break]. *)
Fixpoint find_loop (ports : list QSerialPortInfo) : M unit :=
  match ports with
  | [] => ret tt
  | p :: ports' =>
    ok <- setup (Some p) ;;
    if ok then ret tt else find_loop ports'
  end.

Definition find : M unit :=
  ports <- get availablePorts ;;
  if (List.length ports <? 1)%nat then logger WARNING NoSerialPortsDetected
  else find_loop ports.

(** [__init__], on the object as [QSerialPort.__init__] leaves it. *)
Definition __init__ (port_ : option QSerialPortInfo) (eol_ : str)
    (manufacturer_ : string) (baudrate_ databits_ parity_ stopbits_ : Z)
    (timeout_ : Z) (sync_ : bool) : M unit :=
  modify (set_eol eol_) ;;
  modify (set_manufacturer manufacturer_) ;;
  modify (set_line (mkLine baudrate_ databits_ parity_ stopbits_)) ;;
  modify (set_timeout timeout_) ;;
  modify (set_buffer []) ;;
  sync_setter sync_ ;;
  match port_ with
  | None => find
  | Some _ => _ <- setup port_ ;; ret tt
  end ;;
  o <- get isOpen ;;
  if negb o then raise (ValueError "Could not find serial device")
  else ret tt.

End Identify.

(** The [identify] of the base class. *)
Definition identify : M bool := ret true.

(** A [QSerialPort] just constructed, on a host with the given ports and a
    peer with the given script. *)
Definition QSerialPort_new (ports : list QSerialPortInfo)
    (script : list (option bytes)) (acks_ : list bool) : QSerialDevice :=
  mkDevice [] EmptyString (mkLine 9600 8 0 1) 0 [] false
           None (mkLine 9600 8 0 1) false [] []
           ports script acks_
           [] [] [] [].


(** ** Definitions the properties are stated with *)

(** The numbers the binding hands to Qt as a C [int]: line settings and
    timeouts outside this range make it raise [OverflowError]. *)
Definition c_int (z : Z) : Prop := -2147483648 <= z < 2147483648.

(** Mode assignments one after the other. *)
Fixpoint sync_setters (states : list bool) : M unit :=
  match states with
  | [] => ret tt
  | s :: states' => sync_setter s ;; sync_setters states'
  end.

(** The loop of [getData] in the words of its description: read until the
    buffer holds the delimiter [d]; bytes that come in time are appended and
    the loop goes on, the first silence ends it.  Answers the buffer, what
    is left of the script, and whether a wait timed out. *)
Fixpoint spec_read_until (d buf : bytes) (script : list (option bytes))
  : bytes * list (option bytes) * bool :=
  if contains buf d then (buf, script, false)
  else match script with
       | Some bs :: script' => spec_read_until d (buf ++ bs) script'
       | None :: script' => (buf, script', true)
       | [] => (buf, [], true)
       end.

(** What [getData] leaves and answers once its loop has ended with buffer
    [buf], with [rest] of the peer's script unread, after a timeout or not:
    the trimmed buffer is decoded; the string is logged and returned and the
    buffer cleared, or the decoding error is raised. *)
Definition getData_ending (st : QSerialDevice) (buf : bytes)
    (rest : list (option bytes)) (timedout : bool)
  : outcome str * QSerialDevice :=
  let st1 :=
    set_log (log st ++ if timedout then [(DEBUG, GetsTimedOut)] else [])
      (set_incoming rest (set_buffer buf st)) in
  match decode (trimmed buf) with
  | Some s =>
    (Ok s,
     set_buffer []
       (set_log (log st1 ++ [(DEBUG, GetsReceived (List.length s) s)]) st1))
  | None => (Raise UnicodeDecodeError, st1)
  end.

(** Extraction in the words of its description: where the buffer holds the
    delimiter [d], the message is what comes before the first [d], trimmed
    and decoded. *)
Fixpoint before_first (d buf : bytes) : bytes :=
  if startswith buf d then []
  else match buf with
       | [] => []
       | b :: buf' => b :: before_first d buf'
       end.

Definition spec_first_message (d buf : bytes) : option str :=
  if contains buf d then decode (trimmed (before_first d buf)) else None.

(** ** Concrete sessions for the examples *)

Definition ttyUSB0 : QSerialPortInfo := mkPortInfo "/dev/ttyUSB0" false true.
Definition ttyUSB1 : QSerialPortInfo := mkPortInfo "/dev/ttyUSB1" false true.
Definition ttyUSB2 : QSerialPortInfo := mkPortInfo "/dev/ttyUSB2" false true.
Definition ttyBusy : QSerialPortInfo := mkPortInfo "/dev/ttyS0" true true.
Definition ttyDead : QSerialPortInfo := mkPortInfo "/dev/ttyS1" false false.

(** [QSerialDevice(port=ttyUSB0, eol=eol_, sync=sync_)], other arguments at
    their defaults, facing a peer with the given script. *)
Definition session (eol_ : str) (sync_ : bool) (script : list (option bytes))
  : QSerialDevice :=
  snd (__init__ identify (Some ttyUSB0) eol_ "Prolific" 9600 8 0 1 1000 sync_
         (QSerialPort_new [ttyUSB0] script [true])).

Definition CR : str := [13].

(** Two messages in the buffer, and a buffer that is not UTF-8. *)
Definition two_messages : bytes := text "a" ++ CR ++ text "b" ++ CR.
Definition malformed : bytes := [0xFF; 13].

(** ** Port discovery *)
(** An [identify] that knows the device by the port it sits on: a stand-in
    for the query a subclass sends to the device. *)
Definition identify_at (name : string) : M bool := fun st =>
  (Ok match port st with
      | Some p => String.eqb (systemLocation p) name
      | None => false
      end, st).

(** [identify], run with the object on port [q], answers [False]. *)
Definition rejects (id : M bool) (q : QSerialPortInfo) : Prop :=
  forall st, port st = Some q -> fst (id st) = Ok false.

(** [identify], run with the object on port [p], answers [True]. *)
Definition accepts (id : M bool) (p : QSerialPortInfo) : Prop :=
  forall st, port st = Some p -> fst (id st) = Ok true.

(** The three ways [setup] gives up on a port: it is busy, it does not
    open, or [identify] does not recognise what is on it. *)
Definition fails (id : M bool) (q : QSerialPortInfo) : Prop :=
  isBusy q = true \/ opens q = false \/ rejects id q.

(** [identify] talks over the port but neither opens, closes nor changes
    it. *)
Definition keeps_channel (id : M bool) : Prop :=
  forall st,
    isOpen (snd (id st)) = isOpen st /\
    port (snd (id st)) = port st /\
    portOps (snd (id st)) = portOps st.

(** What [setup] does to a port it gives up on: nothing, or open then
    close. *)
Definition probe_ops (q : QSerialPortInfo) : list PortOp :=
  if isBusy q || negb (opens q) then []
  else [Opened (systemLocation q); Closed (systemLocation q)].

(** The object as [setup] hands it to [identify]: on port [q], configured,
    open, nothing read yet. *)
Definition at_identify (q : QSerialPortInfo) (st : QSerialDevice)
  : QSerialDevice :=
  let l := line st in
  set_portOps (portOps st ++ [Opened (systemLocation q)])
    (set_rx []
       (set_isOpen true
          (set_portLine
             (mkLine (baudrate l) (databits l) (parity l) (stopbits l))
             (set_port (Some q)
                (set_log (log st ++ [(DEBUG, SettingUp (systemLocation q))])
                   st))))).

(** ** What a method leaves alone *)

(** The sending side of the object and its connection: the delimiter, the
    timeout, the mode and what is connected to [readyRead], the port with
    its settings and state, and everything written so far. *)
Definition connection (st : QSerialDevice) :=
  (eol st, timeout st, _sync st, readyRead st,
   (port st, portLine st, isOpen st, portOps st, written st)).

(** The receiving side: the buffer, the unread bytes, what [dataReady] has
    emitted and what the peer has still to send. *)
Definition receiving_side (st : QSerialDevice) :=
  (buffer st, rx st, emitted st, incoming st).

(** The peer's bytes reaching the port piece by piece, each arrival
    announced by [readyRead]. *)
Fixpoint arrivals (chunks : list bytes) : M unit :=
  match chunks with
  | [] => ret tt
  | c :: chunks' => arrive c ;; arrivals chunks'
  end.

(** The peer has nothing more to say for now: the next wait for input, if
    any, meets silence. *)
Definition quiet (script : list (option bytes)) : Prop :=
  match script with
  | Some _ :: _ => False
  | _ => True
  end.

(** [m] is a complete message for delimiter [d] with text [s]: it holds the
    delimiter and its trimmed bytes decode to [s]. *)
Definition message (d : bytes) (m : bytes) (s : str) : Prop :=
  contains m d = true /\ decode (trimmed m) = Some s.

(** ** The demonstration window *)

(** What [Main.__init__] itself puts on the terminal: the lines it prints
    and the warning it logs before the device object exists. *)
Inductive ConsoleLine : Type :=
| Print (s : str)
| LogWarning (s : string).

(** The exceptions that leave [Main.__init__]: the [IndexError] of
    [ports[number]], or whatever the device object raises. *)
Inductive MainExn : Type :=
| IndexError
| FromDevice (e : exn).

(** [l[i]] on a Python list: negative indices count from the end; [None]
    where Python raises [IndexError]. *)
Definition py_index {A : Type} (l : list A) (i : Z) : option A :=
  let n := Z.of_nat (List.length l) in
  if (i <? - n) || (n <=? i) then None
  else nth_error l (Z.to_nat (if i <? 0 then i + n else i)).

(** [Main.__init__(number)] on a host with the given ports and peer: the
    exception raised, if any, the console lines, and the device object (the
    bare [QSerialPort] where none was constructed). *)
Definition Main_init (number : Z) (ports : list QSerialPortInfo)
    (script : list (option bytes)) (acks_ : list bool)
  : option MainExn * list ConsoleLine * QSerialDevice :=
  let fresh := QSerialPort_new ports script acks_ in
  let out0 :=
    if (List.length ports <? 1)%nat then [LogWarning "No serial ports"]
    else [] in
  match py_index ports number with
  | None => (Some IndexError, out0, fresh)
  | Some port_ =>
    let out1 := out0 ++ [Print (text (systemLocation port_))] in
    match __init__ identify (Some port_) CR "Prolific" 9600 8 0 1 1000 false
            fresh with
    | (Raise e, st) => (Some (FromDevice e), out1, st)
    | (Ok _, st) =>
      if isOpen st then
        match handshake (text "VERSION") st with
        | (Ok res, st') =>
          (None, out1 ++ [Print (text "open"); Print res], st')
        | (Raise e, st') =>
          (Some (FromDevice e), out1 ++ [Print (text "open")], st')
        end
      else (None, out1, st)
    end
  end.

(** [Main.closeEvent]. *)
Definition Main_closeEvent : M unit := close.

(** * Properties *)

(** ** The model on concrete inputs *)

Example decode_ascii : decode [0x61; 0x62] = Some (text "ab").
Proof. reflexivity. Qed.
Example decode_e_acute : decode [0xC3; 0xA9] = Some [0xE9].
Proof. reflexivity. Qed.
Example decode_overlong : decode [0xC0; 0x80] = None.
Proof. reflexivity. Qed.
Example decode_stray : decode [0xFF; 0x0D] = None.
Proof. reflexivity. Qed.
Example encode_euro : encode [0x20AC] = Some [0xE2; 0x82; 0xAC].
Proof. reflexivity. Qed.
Example encode_surrogate : encode [0xD800] = None.
Proof. reflexivity. Qed.
Example trimmed_inner : trimmed [32; 0x61; 13; 0x62; 13; 10] = [0x61; 13; 0x62].
Proof. reflexivity. Qed.
Example contains_empty_needle : contains [] [] = true.
Proof. reflexivity. Qed.

(** ** setup without a port *)

(** C10.  [setup(None)] answers [False] without raising; the object it
    leaves is the one it found but for one more log record
    ("No serial port specified" at level INFO): no port is set or opened,
    the buffer is untouched. *)
Theorem setup_None :
  forall (identify_ : M bool) (st : QSerialDevice),
    setup identify_ None st =
    (Ok false, set_log (log st ++ [(INFO, NoSerialPortSpecified)]) st).
Proof. intros. reflexivity. Qed.

(** ** handshake and the mode *)

(** C3.  In asynchronous mode [handshake] answers the empty string and
    leaves the object as it was but for one log record at level ERROR, so
    nothing is written; in synchronous mode it is [sendData] followed by
    [getData], whose result it returns. *)
Theorem handshake_by_mode :
  forall (data : str) (st : QSerialDevice),
    handshake data st =
    if _sync st
    then (sendData data ;; getData) st
    else (Ok [], set_log (log st ++ [(ERROR, CannotHandshakeAsync)]) st).
Proof.
  intros data st. unfold handshake, bind at 1, get.
  destruct (_sync st); simpl.
  - unfold bind. destruct (sendData data st) as [[u|e] st1]; [|reflexivity].
    destruct (getData st1) as [[s|e] st2]; reflexivity.
  - reflexivity.
Qed.

(** ** The mode switch *)

Lemma sync_setter_eq :
  forall (state : bool) (st : QSerialDevice),
    sync_setter state st =
    (Ok tt,
     set_readyRead (if state then [] else [SlotReceive]) (set_sync state st)).
Proof.
  intros state st. destruct st as [e m l t b s p pl o r rr ap i a w em lg po].
  unfold sync_setter, bind, modify, try_pass, readyRead_disconnect, get,
    readyRead_connect, ret; simpl.
  destruct rr, state; reflexivity.
Qed.

(** C8.  A mode assignment never raises, whatever is connected, and leaves
    [readyRead] connected to [receive] exactly once when the mode is
    asynchronous and to nothing when it is synchronous; so does any run of
    assignments, by its last one. *)
Theorem sync_setter_one_binding :
  (forall (state : bool) (st : QSerialDevice),
      sync_setter state st =
      (Ok tt,
       set_readyRead (if state then [] else [SlotReceive]) (set_sync state st)))
  /\
  (forall (states : list bool) (last : bool) (st : QSerialDevice),
      fst (sync_setters (states ++ [last]) st) = Ok tt /\
      _sync (snd (sync_setters (states ++ [last]) st)) = last /\
      readyRead (snd (sync_setters (states ++ [last]) st)) =
      if last then [] else [SlotReceive]).
Proof.
  split; [exact sync_setter_eq|].
  induction states as [|s states IH]; intros last st; simpl.
  - unfold bind. rewrite sync_setter_eq. simpl. destruct last; auto.
  - unfold bind. rewrite sync_setter_eq. apply IH.
Qed.

(** ** getData *)

Ltac run :=
  cbv beta iota zeta delta
    [bind get modify ret raise logger py_encode py_decode eol_encode
     buffer_append dataReady_emit readAll];
  simpl.

Ltac break_match :=
  match goal with
  | |- context [match ?x with _ => _ end] => destruct x eqn:?
  end.

Lemma receive_frame :
  forall st, incoming (snd (receive st)) = incoming st /\
             fst (receive st) <> Raise Unfinished.
Proof.
  intros st. unfold receive. run.
  destruct (encode (eol st)) as [d|]; simpl; [|split; [reflexivity|discriminate]].
  destruct (contains (buffer st ++ rx st) d); simpl;
    [|split; [reflexivity|discriminate]].
  destruct (decode (trimmed (buffer st ++ rx st))); simpl;
    split; try reflexivity; discriminate.
Qed.

Lemma run_slots_frame :
  forall slots st, incoming (snd (run_slots slots st)) = incoming st /\
                   fst (run_slots slots st) <> Raise Unfinished.
Proof.
  induction slots as [|[] slots IH]; intros st; simpl.
  - split; [reflexivity | discriminate].
  - unfold bind. destruct (receive_frame st) as [Hi Hu].
    destruct (receive st) as [[u|e] st1]; simpl in *.
    + rewrite <- Hi. apply IH.
    + auto.
Qed.

Lemma while_S :
  forall n cond body,
    while_ (S n) cond body =
    (c <- cond ;;
     if c then (go <- body ;; if go then while_ n cond body else ret tt)
     else ret tt).
Proof. reflexivity. Qed.

Lemma while_getData_bound :
  forall n st, (List.length (incoming st) < n)%nat ->
               fst (while_ n getData_cond getData_body st) <> Raise Unfinished.
Proof.
  induction n as [|n IH]; intros st Hn; [lia|].
  rewrite while_S. unfold bind at 1. unfold getData_cond at 1. run.
  destruct (encode (eol st)) as [d|]; simpl; [|discriminate].
  destruct (contains (buffer st) d); simpl; [discriminate|].
  unfold getData_body at 1, bind at 1 2, get, waitForReadyRead.
  destruct (isOpen st); [|simpl; discriminate].
  destruct (incoming st) as [|[bs|] r] eqn:Hin; try (simpl; discriminate).
  unfold arrive. run.
  match goal with
  | |- context [run_slots ?l ?s] =>
    destruct (run_slots_frame l s) as [Hi Hu];
    destruct (run_slots l s) as [[u|e] st1]
  end; simpl in *; [|assumption].
  apply IH. simpl. rewrite Hi. lia.
Qed.

(** [getData] never stops on the bound of its loop: it comes back with a
    string or raises a codec error. *)
Lemma getData_finishes :
  forall st, fst (getData st) <> Raise Unfinished.
Proof.
  intros st. unfold getData. run.
  pose proof (while_getData_bound (S (List.length (incoming st))) st
                (Nat.lt_succ_diag_r _)) as Hb.
  destruct (while_ (S (List.length (incoming st))) getData_cond getData_body st)
    as [[u|e] st1]; simpl in *.
  - destruct (decode (trimmed (buffer st1))); simpl; discriminate.
  - intros H. apply Hb. inversion H. reflexivity.
Qed.

Lemma getData_Ok_clears :
  forall (st st' : QSerialDevice) (s : str),
    getData st = (Ok s, st') -> buffer st' = [].
Proof.
  intros st st' s. unfold getData. run.
  destruct (while_ (S (List.length (incoming st))) getData_cond getData_body st)
    as [[u|e] st1]; simpl; [|discriminate].
  destruct (decode (trimmed (buffer st1))); simpl; [|discriminate].
  intros H. inversion H. reflexivity.
Qed.

(** The loop of [getData] in synchronous mode, where nothing is connected
    to [readyRead]: it is [spec_read_until] on the peer's script. *)
Lemma while_getData_sync :
  forall script n st d,
    isOpen st = true -> readyRead st = [] -> rx st = [] ->
    encode (eol st) = Some d ->
    incoming st = script ->
    (List.length script < n)%nat ->
    while_ n getData_cond getData_body st =
    (Ok tt,
     let '(buf, rest, timedout) := spec_read_until d (buffer st) script in
     set_log (log st ++ if timedout then [(DEBUG, GetsTimedOut)] else [])
       (set_incoming rest (set_buffer buf st))).
Proof.
  induction script as [|ev script IH]; intros n st d Ho Hr Hx He Hi Hn;
    (destruct n as [|n]; [simpl in Hn; lia|]);
    rewrite while_S; unfold getData_cond, getData_body, waitForReadyRead, arrive;
    run; rewrite He; simpl;
    destruct (contains (buffer st) d) eqn:Hc; simpl.
  - destruct st; simpl in *; subst. rewrite app_nil_r. reflexivity.
  - rewrite Ho, Hi. simpl. destruct st; simpl in *; subst. reflexivity.
  - destruct st; simpl in *; subst. rewrite app_nil_r. reflexivity.
  - rewrite Ho, Hi. destruct ev as [bs|]; simpl.
    + rewrite Hr. simpl. rewrite Hx. simpl.
      rewrite (IH n _ d); simpl; auto; [|simpl in Hn; lia].
      destruct (spec_read_until d (buffer st ++ bs) script) as [[buf rest] to].
      destruct st; simpl in *; subst. reflexivity.
    + destruct st; simpl in *; subst. reflexivity.
Qed.

(** C1.  In synchronous mode [getData] reads until the delimiter or the
    first timeout: its loop is [spec_read_until] on what the peer sends
    (bytes in time are appended and the loop goes on until the buffer holds
    the delimiter; the first silence ends the loop, later entries of the
    script stay unread), and it then decodes the trimmed buffer, complete
    or not. *)
Theorem getData_sync_until_eol_or_timeout :
  forall (st : QSerialDevice) (d : bytes),
    isOpen st = true -> readyRead st = [] -> rx st = [] ->
    encode (eol st) = Some d ->
    getData st =
    let '(buf, rest, timedout) :=
      spec_read_until d (buffer st) (incoming st) in
    getData_ending st buf rest timedout.
Proof.
  intros st d Ho Hr Hx He. unfold getData. run.
  rewrite (while_getData_sync (incoming st) _ st d Ho Hr Hx He eq_refl
             (Nat.lt_succ_diag_r _)).
  destruct (spec_read_until d (buffer st) (incoming st)) as [[buf rest] to].
  unfold getData_ending. simpl.
  destruct (decode (trimmed buf)); reflexivity.
Qed.

(** A reply cut short: two bytes, a silence, then the rest.  [getData]
    answers the two bytes and does not wait for the rest. *)
Lemma getData_sync_until_eol_or_timeout_witness :
  fst (getData (session CR true
         [Some (text "ab"); None; Some (text "c" ++ CR)])) = Ok (text "ab") /\
  incoming (snd (getData (session CR true
         [Some (text "ab"); None; Some (text "c" ++ CR)]))) =
  [Some (text "c" ++ CR)].
Proof.
  rewrite (getData_sync_until_eol_or_timeout
             (session CR true [Some (text "ab"); None; Some (text "c" ++ CR)])
             CR eq_refl eq_refl eq_refl eq_refl).
  split; reflexivity.
Defined.

(** The two ways the loop ends, spelled out on the peer's script. *)
Lemma spec_read_until_timeout :
  forall d chunks buf rest,
    (forall k, (k <= List.length chunks)%nat ->
               contains (buf ++ List.concat (firstn k chunks)) d = false) ->
    spec_read_until d buf (map Some chunks ++ None :: rest) =
    (buf ++ List.concat chunks, rest, true).
Proof.
  induction chunks as [|c chunks IH]; intros buf rest H; simpl.
  - specialize (H O (Nat.le_refl _)). simpl in H. rewrite app_nil_r in *.
    rewrite H. reflexivity.
  - pose proof (H O (Nat.le_0_l _)) as H0. simpl in H0.
    rewrite app_nil_r in H0. rewrite H0.
    rewrite IH.
    + rewrite app_assoc. reflexivity.
    + intros k Hk. specialize (H (S k)). simpl in H.
      rewrite app_assoc in H. apply H. lia.
Qed.

Lemma spec_read_until_eol :
  forall d chunks buf rest,
    (forall k, (k < List.length chunks)%nat ->
               contains (buf ++ List.concat (firstn k chunks)) d = false) ->
    contains (buf ++ List.concat chunks) d = true ->
    spec_read_until d buf (map Some chunks ++ rest) =
    (buf ++ List.concat chunks, rest, false).
Proof.
  induction chunks as [|c chunks IH]; intros buf rest H Hc; simpl in *.
  - rewrite app_nil_r in *. destruct rest as [|[?|] ?]; simpl; rewrite Hc;
      reflexivity.
  - pose proof (H O (Nat.lt_0_succ _)) as H0. simpl in H0.
    rewrite app_nil_r in H0. rewrite H0.
    rewrite IH.
    + rewrite app_assoc. reflexivity.
    + intros k Hk. specialize (H (S k)). simpl in H.
      rewrite app_assoc in H. apply H. lia.
    + rewrite <- app_assoc. assumption.
Qed.

(** ** Extraction *)

(** One extraction on two buffered messages hands out both of them, the
    delimiter between them included, where the description promises the
    first one only. *)
Lemma extraction_hands_out_both_messages :
  spec_first_message CR two_messages = Some (text "a") /\
  fst (getData (set_buffer two_messages (session CR true []))) =
  Ok (text "a" ++ CR ++ text "b") /\
  emitted (snd (receive (set_rx two_messages (session CR false [])))) =
  [text "a" ++ CR ++ text "b"] /\
  text "a" ++ CR ++ text "b" <> text "a".
Proof. repeat split; try reflexivity. discriminate. Qed.

(** C2, as the code has it.  Where the buffer holds the delimiter, one
    extraction takes the whole buffer: [getData] returns, and [receive]
    emits through [dataReady], the trimmed and decoded buffer, delimiters
    inside it and later messages included, and the buffer is left empty. *)
Theorem extraction_takes_whole_buffer :
  forall (st : QSerialDevice) (d : bytes) (s : str),
    encode (eol st) = Some d ->
    contains (buffer st) d = true ->
    decode (trimmed (buffer st)) = Some s ->
    getData st =
    (Ok s,
     set_buffer []
       (set_log (log st ++ [(DEBUG, GetsReceived (List.length s) s)]) st)) /\
    forall b0 bs : bytes,
      b0 ++ bs = buffer st ->
      receive (set_rx bs (set_buffer b0 st)) =
      (Ok tt,
       set_buffer []
         (set_emitted (emitted st ++ [s])
            (set_log (log st ++ [(DEBUG, DataReceived); (DEBUG, EOLReceived)])
               (set_rx [] st)))).
Proof.
  intros st d s He Hc Hd. split.
  - unfold getData. run. rewrite while_S. unfold getData_cond. run.
    rewrite He. simpl. rewrite Hc. simpl. rewrite Hd. simpl.
    destruct st; reflexivity.
  - intros b0 bs Hb. unfold receive. run. rewrite He. simpl.
    rewrite Hb, Hc. simpl. rewrite Hd. simpl.
    destruct st; simpl. rewrite <- app_assoc. reflexivity.
Qed.

Lemma extraction_takes_whole_buffer_witness :
  fst (getData (set_buffer two_messages (session CR true []))) =
  Ok (text "a" ++ CR ++ text "b") /\
  buffer (snd (getData (set_buffer two_messages (session CR true [])))) = [].
Proof.
  rewrite (proj1 (extraction_takes_whole_buffer
                    (set_buffer two_messages (session CR true []))
                    CR (text "a" ++ CR ++ text "b")
                    eq_refl eq_refl eq_refl)).
  split; reflexivity.
Defined.

(** On bytes that do not decode, neither method clears the buffer: the
    error leaves [getData] and [receive] with the bytes still buffered. *)
Lemma decode_failure_leaves_buffer :
  fst (getData (set_buffer malformed (session CR true []))) =
  Raise UnicodeDecodeError /\
  buffer (snd (getData (set_buffer malformed (session CR true [])))) =
  malformed /\
  fst (receive (set_rx malformed (session CR false []))) =
  Raise UnicodeDecodeError /\
  buffer (snd (receive (set_rx malformed (session CR false [])))) =
  malformed /\
  malformed <> [].
Proof. repeat split; try reflexivity. discriminate. Qed.

(** C7, as the code has it.  Where the buffered bytes hold the delimiter but
    do not decode, [UnicodeDecodeError] leaves [getData] and [receive]:
    nothing is returned, nothing is emitted, and the buffer keeps the
    bytes. *)
Theorem decode_failure_raises_and_keeps_buffer :
  forall (st : QSerialDevice) (d : bytes),
    encode (eol st) = Some d ->
    contains (buffer st) d = true ->
    decode (trimmed (buffer st)) = None ->
    getData st = (Raise UnicodeDecodeError, st) /\
    forall b0 bs : bytes,
      b0 ++ bs = buffer st ->
      receive (set_rx bs (set_buffer b0 st)) =
      (Raise UnicodeDecodeError,
       set_log (log st ++ [(DEBUG, DataReceived); (DEBUG, EOLReceived)])
         (set_rx [] st)).
Proof.
  intros st d He Hc Hd. split.
  - unfold getData. run. rewrite while_S. unfold getData_cond. run.
    rewrite He. simpl. rewrite Hc. simpl. rewrite Hd. reflexivity.
  - intros b0 bs Hb. unfold receive. run. rewrite He. simpl.
    rewrite Hb, Hc. simpl. rewrite Hd. simpl.
    destruct st; simpl. rewrite <- app_assoc. reflexivity.
Qed.

Lemma decode_failure_raises_and_keeps_buffer_witness :
  fst (getData (set_buffer malformed (session CR true []))) =
  Raise UnicodeDecodeError /\
  buffer (snd (getData (set_buffer malformed (session CR true [])))) =
  malformed.
Proof.
  rewrite (proj1 (decode_failure_raises_and_keeps_buffer
                    (set_buffer malformed (session CR true [])) CR
                    eq_refl eq_refl eq_refl)).
  split; reflexivity.
Defined.

(** C9.  [getData] leaves the receive buffer empty.  Whenever it returns a
    string the buffer is empty; and in synchronous mode it does return
    whenever the bytes its loop ends with decode, whether the loop ended
    because the delimiter was found or because a wait timed out on a
    partial, possibly empty, buffer: it returns these bytes trimmed and
    decoded, and the buffer is empty. *)
Theorem getData_clears_buffer :
  (forall (st st' : QSerialDevice) (s : str),
      getData st = (Ok s, st') -> buffer st' = []) /\
  (forall (st : QSerialDevice) (d buf : bytes) (rest : list (option bytes))
          (timedout : bool) (s : str),
      isOpen st = true -> readyRead st = [] -> rx st = [] ->
      encode (eol st) = Some d ->
      spec_read_until d (buffer st) (incoming st) = (buf, rest, timedout) ->
      decode (trimmed buf) = Some s ->
      fst (getData st) = Ok s /\
      buffer (snd (getData st)) = [] /\
      incoming (snd (getData st)) = rest).
Proof.
  split; [exact getData_Ok_clears|].
  intros st d buf rest timedout s Ho Hr Hx He Hl Hd.
  unfold getData. run.
  rewrite (while_getData_sync (incoming st) _ st d Ho Hr Hx He eq_refl
             (Nat.lt_succ_diag_r _)).
  rewrite Hl. simpl. rewrite Hd. simpl. auto.
Qed.

(** A reply cut short on a buffer that is not empty: "par" is buffered,
    "tial" arrives, then silence. *)
Lemma getData_clears_buffer_witness :
  fst (getData (set_buffer (text "par")
                  (session CR true [Some (text "tial"); None; Some CR]))) =
  Ok (text "partial") /\
  buffer (snd (getData (set_buffer (text "par")
                  (session CR true [Some (text "tial"); None; Some CR])))) = [].
Proof.
  destruct (proj2 getData_clears_buffer
              (set_buffer (text "par")
                 (session CR true [Some (text "tial"); None; Some CR]))
              CR (text "partial") [Some CR] true (text "partial")
              eq_refl eq_refl eq_refl eq_refl eq_refl eq_refl)
    as [H1 [H2 _]].
  split; assumption.
Defined.

(** ** Port discovery *)

Ltac run_setup :=
  cbv beta iota zeta delta
    [setup bind get modify ret raise logger setPort setBaudRate setDataBits
     setParity setStopBits open close bytesAvailable readAll];
  simpl.

Lemma setup_busy :
  forall id q st,
    isBusy q = true ->
    setup id (Some q) st =
    (Ok false,
     set_log (log st ++ [(DEBUG, SettingUp (systemLocation q));
                         (DEBUG, PortIsBusy (systemLocation q))]) st).
Proof.
  intros id q st Hb. run_setup. rewrite Hb. simpl.
  destruct st; simpl. rewrite <- app_assoc. reflexivity.
Qed.

Lemma setup_not_opened :
  forall id q st,
    isBusy q = false -> opens q = false -> isOpen st = false ->
    exists st',
      setup id (Some q) st = (Ok false, st') /\
      isOpen st' = false /\ portOps st' = portOps st.
Proof.
  intros id q st Hb Hop Ho. run_setup. rewrite Hb. simpl.
  rewrite Ho, Hop. simpl.
  eexists. split; [reflexivity|]. simpl. auto.
Qed.

Lemma setup_opened :
  forall id q st,
    isBusy q = false -> opens q = true -> isOpen st = false ->
    setup id (Some q) st =
    (found <- id ;;
     if found then
       logger INFO (DeviceFoundAt (systemLocation q)) ;; ret true
     else
       close ;; logger DEBUG (DeviceNotConnectedTo (systemLocation q)) ;;
       ret false) (at_identify q st).
Proof.
  intros id q st Hb Hop Ho. unfold at_identify. run_setup. rewrite Hb. simpl.
  rewrite Ho, Hop. simpl.
  destruct st; simpl in *; reflexivity.
Qed.

Lemma at_identify_channel :
  forall q st,
    isOpen (at_identify q st) = true /\
    port (at_identify q st) = Some q /\
    portOps (at_identify q st) = portOps st ++ [Opened (systemLocation q)].
Proof.
  intros q st. unfold at_identify. simpl. auto.
Qed.

Lemma setup_fails_closed :
  forall id q st,
    isOpen st = false -> fails id q ->
    exists st', setup id (Some q) st = (Ok false, st') /\ isOpen st' = false.
Proof.
  intros id q st Ho Hf.
  destruct (isBusy q) eqn:Hb.
  { rewrite setup_busy by assumption. eexists; split; [reflexivity|]. assumption. }
  destruct (opens q) eqn:Hop.
  2: { destruct (setup_not_opened id q st Hb Hop Ho) as [st' [H1 [H2 _]]].
       eauto. }
  destruct Hf as [Hf|[Hf|Hf]]; try congruence.
  rewrite setup_opened by assumption.
  destruct (at_identify_channel q st) as [_ [Hp _]].
  specialize (Hf _ Hp).
  cbv beta iota zeta delta [bind ret logger modify close].
  destruct (id (at_identify q st)) as [[b|e] st1]; simpl in Hf; inversion Hf; subst.
  destruct (isOpen st1) eqn:H1; simpl; eexists; (split; [reflexivity|]);
    simpl; auto.
Qed.

Lemma setup_fails_ops :
  forall id q st,
    keeps_channel id -> isOpen st = false -> fails id q ->
    exists st',
      setup id (Some q) st = (Ok false, st') /\ isOpen st' = false /\
      portOps st' = portOps st ++ probe_ops q.
Proof.
  intros id q st Hk Ho Hf. unfold probe_ops.
  destruct (isBusy q) eqn:Hb; cbn [orb negb].
  { rewrite setup_busy by assumption. eexists; split; [reflexivity|].
    simpl. rewrite app_nil_r. auto. }
  destruct (opens q) eqn:Hop; cbn [orb negb].
  2: { destruct (setup_not_opened id q st Hb Hop Ho) as [st' [H1 [H2 H3]]].
       exists st'. rewrite app_nil_r. auto. }
  destruct Hf as [Hf|[Hf|Hf]]; try congruence.
  rewrite setup_opened by assumption.
  destruct (at_identify_channel q st) as [Hi [Hp Hops]].
  specialize (Hf _ Hp). destruct (Hk (at_identify q st)) as [K1 [K2 K3]].
  cbv beta iota zeta delta [bind ret logger modify close].
  destruct (id (at_identify q st)) as [[b|e] st1]; simpl in *;
    inversion Hf; subst.
  rewrite K1. simpl. eexists; split; [reflexivity|]. simpl.
  rewrite K2, K3, <- app_assoc. auto.
Qed.

Lemma setup_accepts :
  forall id p st,
    keeps_channel id -> isOpen st = false ->
    isBusy p = false -> opens p = true -> accepts id p ->
    exists st',
      setup id (Some p) st = (Ok true, st') /\ isOpen st' = true /\
      port st' = Some p /\
      portOps st' = portOps st ++ [Opened (systemLocation p)].
Proof.
  intros id p st Hk Ho Hb Hop Ha.
  rewrite setup_opened by assumption.
  destruct (at_identify_channel p st) as [Hi [Hp Hops]].
  specialize (Ha _ Hp). destruct (Hk (at_identify p st)) as [K1 [K2 K3]].
  cbv beta iota zeta delta [bind ret logger modify close].
  destruct (id (at_identify p st)) as [[b|e] st1]; simpl in *;
    inversion Ha; subst.
  eexists; split; [reflexivity|]. simpl.
  rewrite K1, K2, K3. auto.
Qed.

Lemma find_loop_all_fail :
  forall id ports st,
    isOpen st = false -> Forall (fails id) ports ->
    exists st', find_loop id ports st = (Ok tt, st') /\ isOpen st' = false.
Proof.
  induction ports as [|q ports IH]; intros st Ho Hf; cbn [find_loop app].
  - exists st. split; [reflexivity | assumption].
  - inversion Hf as [|? ? Hq Hrest]; subst.
    destruct (setup_fails_closed id q st Ho Hq) as [st1 [E1 Ho1]].
    unfold bind. rewrite E1. apply IH; assumption.
Qed.

Lemma find_loop_first_match :
  forall id pre p post st,
    keeps_channel id -> isOpen st = false ->
    Forall (fails id) pre ->
    isBusy p = false -> opens p = true -> accepts id p ->
    exists st',
      find_loop id (pre ++ p :: post) st = (Ok tt, st') /\
      isOpen st' = true /\ port st' = Some p /\
      portOps st' =
      portOps st ++ flat_map probe_ops pre ++ [Opened (systemLocation p)].
Proof.
  induction pre as [|q pre IH]; intros p post st Hk Ho Hf Hb Hop Ha;
    cbn [find_loop app flat_map].
  - destruct (setup_accepts id p st Hk Ho Hb Hop Ha) as [st1 [E1 H1]].
    unfold bind. rewrite E1. exists st1. split; [reflexivity | exact H1].
  - inversion Hf as [|? ? Hq Hrest]; subst.
    destruct (setup_fails_ops id q st Hk Ho Hq) as [st1 [E1 [Ho1 Hops1]]].
    unfold bind. rewrite E1.
    destruct (IH p post st1 Hk Ho1 Hrest Hb Hop Ha) as [st2 [E2 [A [B C]]]].
    exists st2. rewrite C, Hops1, <- !app_assoc. auto.
Qed.

(** C4.  [find] probes the ports in the order of the catalog and stops at
    the first that is free, opens and identifies: the object ends open on
    it, every port before it that was opened has been closed again, and no
    port after it has been touched. *)
Theorem find_first_match :
  forall (identify_ : M bool) (pre : list QSerialPortInfo)
         (p : QSerialPortInfo) (post : list QSerialPortInfo)
         (st : QSerialDevice),
    keeps_channel identify_ ->
    isOpen st = false ->
    availablePorts st = pre ++ p :: post ->
    Forall (fails identify_) pre ->
    isBusy p = false -> opens p = true -> accepts identify_ p ->
    fst (find identify_ st) = Ok tt /\
    isOpen (snd (find identify_ st)) = true /\
    port (snd (find identify_ st)) = Some p /\
    portOps (snd (find identify_ st)) =
    portOps st ++ flat_map probe_ops pre ++ [Opened (systemLocation p)].
Proof.
  intros id pre p post st Hk Ho Hav Hf Hb Hop Ha.
  destruct (find_loop_first_match id pre p post st Hk Ho Hf Hb Hop Ha)
    as [st' [E H]].
  unfold find, bind, get. rewrite Hav.
  replace (List.length (pre ++ p :: post) <? 1)%nat with false.
  - rewrite E. split; [reflexivity | exact H].
  - symmetry. apply Nat.ltb_ge. rewrite length_app. simpl. lia.
Qed.

(** A catalog of three: the first port opens but hosts another device, the
    second is the device, the third is never tried. *)
Lemma find_first_match_witness :
  isOpen (snd (find (identify_at "/dev/ttyUSB1")
                 (QSerialPort_new [ttyUSB0; ttyUSB1; ttyUSB2] [] []))) = true /\
  port (snd (find (identify_at "/dev/ttyUSB1")
                 (QSerialPort_new [ttyUSB0; ttyUSB1; ttyUSB2] [] []))) =
  Some ttyUSB1 /\
  portOps (snd (find (identify_at "/dev/ttyUSB1")
                 (QSerialPort_new [ttyUSB0; ttyUSB1; ttyUSB2] [] []))) =
  [Opened "/dev/ttyUSB0"; Closed "/dev/ttyUSB0"; Opened "/dev/ttyUSB1"].
Proof.
  refine (proj2 (find_first_match (identify_at "/dev/ttyUSB1")
            [ttyUSB0] ttyUSB1 [ttyUSB2]
            (QSerialPort_new [ttyUSB0; ttyUSB1; ttyUSB2] [] [])
            _ eq_refl eq_refl _ eq_refl eq_refl _)).
  - intros st. simpl. auto.
  - constructor; [|constructor]. right. right.
    intros st H. unfold identify_at. simpl. rewrite H. reflexivity.
  - intros st H. unfold identify_at. simpl. rewrite H. reflexivity.
Defined.

Lemma init_exhausted :
  forall (identify_ : M bool) (eol_ : str) (manufacturer_ : string)
         (baudrate_ databits_ parity_ stopbits_ timeout_ : Z) (sync_ : bool)
         (ports : list QSerialPortInfo) (script : list (option bytes))
         (acks_ : list bool),
    Forall (fails identify_) ports ->
    fst (__init__ identify_ None eol_ manufacturer_ baudrate_ databits_
           parity_ stopbits_ timeout_ sync_
           (QSerialPort_new ports script acks_)) =
    Raise (ValueError "Could not find serial device") /\
    isOpen (snd (__init__ identify_ None eol_ manufacturer_ baudrate_
                   databits_ parity_ stopbits_ timeout_ sync_
                   (QSerialPort_new ports script acks_))) = false /\
    (ports = [] ->
     portOps (snd (__init__ identify_ None eol_ manufacturer_ baudrate_
                     databits_ parity_ stopbits_ timeout_ sync_
                     (QSerialPort_new ports script acks_))) = [] /\
     port (snd (__init__ identify_ None eol_ manufacturer_ baudrate_
                  databits_ parity_ stopbits_ timeout_ sync_
                  (QSerialPort_new ports script acks_))) = None).
Proof.
  intros id e m b db pa sb t sy ports script acks_ Hf.
  unfold __init__, QSerialPort_new.
  cbv beta iota zeta delta [bind modify]. simpl.
  rewrite sync_setter_eq. simpl.
  unfold find. cbv beta iota zeta delta [bind get logger modify]. simpl.
  destruct ports as [|q ports].
  - simpl. repeat split; reflexivity.
  - cbn [List.length Nat.ltb Nat.leb].
    match goal with
    | |- context [find_loop id ?l ?s] =>
      destruct (find_loop_all_fail id l s eq_refl Hf) as [st' [E Ho]]
    end.
    rewrite E. simpl. rewrite Ho. simpl.
    split; [reflexivity | split; [assumption | discriminate]].
Qed.

(** [ValueError] is not the only error that ends a call: on a session
    that was constructed, buffered bytes that do not decode make [getData]
    raise [UnicodeDecodeError], and a text that does not encode makes
    [sendData] raise [UnicodeEncodeError]. *)
Lemma other_errors_than_ValueError :
  fst (getData (set_buffer malformed (session CR true []))) =
  Raise UnicodeDecodeError /\
  fst (sendData [0xD800] (session CR true [])) = Raise UnicodeEncodeError /\
  UnicodeDecodeError <> ValueError "Could not find serial device" /\
  UnicodeEncodeError <> ValueError "Could not find serial device".
Proof. repeat split; try reflexivity; discriminate. Qed.

(** C6, as the code has it.  Where every port of the catalog is busy, fails
    to open or is rejected by [identify], the empty catalog included,
    construction with line settings the binding takes ends with the object
    not open and raises [ValueError]; on the empty catalog no port was set
    and nothing was ever opened.  It is the error of construction, not the
    only error that ends a call: where the buffered bytes hold the
    delimiter and do not decode, [UnicodeDecodeError] leaves [getData], and
    where the text with the delimiter does not encode,
    [UnicodeEncodeError] leaves [sendData]. *)
Theorem init_without_device :
  forall (identify_ : M bool) (eol_ : str) (manufacturer_ : string)
         (baudrate_ databits_ parity_ stopbits_ timeout_ : Z) (sync_ : bool)
         (ports : list QSerialPortInfo) (script : list (option bytes))
         (acks_ : list bool),
    c_int baudrate_ -> c_int databits_ -> c_int parity_ -> c_int stopbits_ ->
    Forall (fails identify_) ports ->
    (fst (__init__ identify_ None eol_ manufacturer_ baudrate_ databits_
            parity_ stopbits_ timeout_ sync_
            (QSerialPort_new ports script acks_)) =
     Raise (ValueError "Could not find serial device") /\
     isOpen (snd (__init__ identify_ None eol_ manufacturer_ baudrate_
                    databits_ parity_ stopbits_ timeout_ sync_
                    (QSerialPort_new ports script acks_))) = false /\
     (ports = [] ->
      portOps (snd (__init__ identify_ None eol_ manufacturer_ baudrate_
                      databits_ parity_ stopbits_ timeout_ sync_
                      (QSerialPort_new ports script acks_))) = [] /\
      port (snd (__init__ identify_ None eol_ manufacturer_ baudrate_
                   databits_ parity_ stopbits_ timeout_ sync_
                   (QSerialPort_new ports script acks_))) = None)) /\
    (forall (st : QSerialDevice) (d : bytes),
        encode (eol st) = Some d ->
        contains (buffer st) d = true ->
        decode (trimmed (buffer st)) = None ->
        getData st = (Raise UnicodeDecodeError, st)) /\
    (forall (st : QSerialDevice) (data : str),
        encode (data ++ eol st) = None ->
        sendData data st = (Raise UnicodeEncodeError, st)).
Proof.
  intros id e m b db pa sb t sy ports script acks_ _ _ _ _ Hf.
  split; [apply init_exhausted; assumption|]. split.
  - intros st d He Hc Hd. unfold getData. run. rewrite while_S.
    unfold getData_cond. run. rewrite He. simpl. rewrite Hc. simpl.
    rewrite Hd. reflexivity.
  - intros st data He. unfold sendData. run. rewrite He. reflexivity.
Qed.

Lemma init_without_device_witness :
  fst (__init__ (identify_at "/dev/ttyUSB1") None CR "Prolific" 9600 8 0 1
         1000 false (QSerialPort_new [ttyBusy; ttyDead; ttyUSB0] [] [])) =
  Raise (ValueError "Could not find serial device") /\
  isOpen (snd (__init__ (identify_at "/dev/ttyUSB1") None CR "Prolific"
                 9600 8 0 1 1000 false
                 (QSerialPort_new [ttyBusy; ttyDead; ttyUSB0] [] []))) = false.
Proof.
  assert (H : Forall (fails (identify_at "/dev/ttyUSB1"))
                [ttyBusy; ttyDead; ttyUSB0]).
  { apply Forall_cons; [left; reflexivity |].
    apply Forall_cons; [right; left; reflexivity |].
    apply Forall_cons; [| apply Forall_nil].
    right. right. intros st H. unfold identify_at. rewrite H. reflexivity. }
  assert (C1 : c_int 9600) by (unfold c_int; lia).
  assert (C2 : c_int 8) by (unfold c_int; lia).
  assert (C3 : c_int 0) by (unfold c_int; lia).
  assert (C4 : c_int 1) by (unfold c_int; lia).
  destruct (proj1 (init_without_device (identify_at "/dev/ttyUSB1") CR
                     "Prolific" 9600 8 0 1 1000 false
                     [ttyBusy; ttyDead; ttyUSB0] [] [] C1 C2 C3 C4 H))
    as [H1 [H2 _]].
  split; assumption.
Defined.

(** ** Delimiter search and trimming *)

Lemma startswith_nil : forall hay, startswith hay [] = true.
Proof. intros [|h hay]; reflexivity. Qed.

Lemma startswith_app :
  forall needle hay rest,
    startswith hay needle = true -> startswith (hay ++ rest) needle = true.
Proof.
  induction needle as [|n needle IH]; intros hay rest H.
  - apply startswith_nil.
  - destruct hay as [|h hay]; simpl in *; [discriminate|].
    apply andb_true_iff in H. destruct H as [H1 H2].
    rewrite H1. simpl. apply IH. assumption.
Qed.

Lemma startswith_refl : forall d rest, startswith (d ++ rest) d = true.
Proof.
  induction d as [|x d IH]; intros rest; simpl; [apply startswith_nil|].
  rewrite Z.eqb_refl. apply IH.
Qed.

Lemma contains_app_l :
  forall hay rest needle,
    contains hay needle = true -> contains (hay ++ rest) needle = true.
Proof.
  induction hay as [|h hay IH]; intros rest needle H.
  - simpl in H. rewrite orb_false_r in H.
    destruct needle; [|discriminate].
    destruct rest; reflexivity.
  - simpl app. simpl in H. apply orb_true_iff in H.
    change (contains (h :: hay ++ rest) needle)
      with (startswith (h :: hay ++ rest) needle || contains (hay ++ rest) needle).
    apply orb_true_iff. destruct H as [H|H].
    + left. apply (startswith_app needle (h :: hay) rest H).
    + right. apply IH. assumption.
Qed.

Lemma contains_app_r :
  forall pre hay needle,
    contains hay needle = true -> contains (pre ++ hay) needle = true.
Proof.
  induction pre as [|p pre IH]; intros hay needle H; [assumption|].
  simpl app.
  change (contains (p :: pre ++ hay) needle)
    with (startswith (p :: pre ++ hay) needle || contains (pre ++ hay) needle).
  rewrite (IH hay needle H). apply orb_true_r.
Qed.

Lemma contains_startswith :
  forall hay needle, startswith hay needle = true -> contains hay needle = true.
Proof.
  intros [|h hay] needle H; simpl in *; rewrite H; reflexivity.
Qed.

Lemma contains_delimiter_at_end :
  forall pre d, contains (pre ++ d) d = true.
Proof.
  intros pre d. apply contains_app_r. apply contains_startswith.
  rewrite <- (app_nil_r d) at 1. apply startswith_refl.
Qed.

Lemma ltrim_ws_app :
  forall w y, forallb isspace w = true -> ltrim (w ++ y) = ltrim y.
Proof.
  induction w as [|b w IH]; intros y H; [reflexivity|].
  simpl in *. apply andb_true_iff in H. destruct H as [Hb Hw].
  rewrite Hb. apply IH. assumption.
Qed.

Lemma ltrim_app :
  forall l w,
    ltrim (l ++ w) = match ltrim l with [] => ltrim w | _ :: _ => ltrim l ++ w end.
Proof.
  induction l as [|b l IH]; intros w; simpl.
  - reflexivity.
  - destruct (isspace b); [apply IH | reflexivity].
Qed.

Lemma forallb_rev :
  forall (f : Z -> bool) l, forallb f l = true -> forallb f (rev l) = true.
Proof.
  intros f l H. apply forallb_forall. intros x Hx.
  apply in_rev in Hx. revert x Hx. apply forallb_forall. assumption.
Qed.

Lemma rtrim_app_ws :
  forall x w, forallb isspace w = true -> rtrim (x ++ w) = rtrim x.
Proof.
  intros x w H. unfold rtrim. rewrite rev_app_distr.
  rewrite ltrim_ws_app by (apply forallb_rev; assumption). reflexivity.
Qed.

Lemma trimmed_app_ws :
  forall l w, forallb isspace w = true -> trimmed (l ++ w) = trimmed l.
Proof.
  intros l w H. unfold trimmed. rewrite ltrim_app.
  destruct (ltrim l) as [|b r] eqn:El.
  - rewrite <- (app_nil_r w), ltrim_ws_app by assumption. reflexivity.
  - apply rtrim_app_ws. assumption.
Qed.

Lemma rtrim_snoc :
  forall l x, rtrim (l ++ [x]) = if isspace x then rtrim l else l ++ [x].
Proof.
  intros l x. unfold rtrim. rewrite rev_app_distr. simpl.
  destruct (isspace x); [reflexivity|].
  simpl. rewrite rev_involutive. reflexivity.
Qed.

(** ** UTF-8 *)

Ltac ztest :=
  repeat match goal with
  | H : (_ <? _) = true |- _ => apply Z.ltb_lt in H
  | H : (_ <? _) = false |- _ => apply Z.ltb_ge in H
  | H : (_ <=? _) = true |- _ => apply Z.leb_le in H
  | H : (_ <=? _) = false |- _ => apply Z.leb_gt in H
  end.

Ltac zdecide :=
  repeat match goal with
  | |- context [?a <? ?b] =>
    first [ replace (a <? b) with true
              by (symmetry; apply Z.ltb_lt; Z.div_mod_to_equations; lia)
          | replace (a <? b) with false
              by (symmetry; apply Z.ltb_ge; Z.div_mod_to_equations; lia) ]
  | |- context [?a <=? ?b] =>
    first [ replace (a <=? b) with true
              by (symmetry; apply Z.leb_le; Z.div_mod_to_equations; lia)
          | replace (a <=? b) with false
              by (symmetry; apply Z.leb_gt; Z.div_mod_to_equations; lia) ]
  end.

Ltac ltb_cases a b := destruct (Z.ltb_spec a b); try lia.

Lemma is_cont_iff : forall b, is_cont b = true <-> 128 <= b < 192.
Proof.
  intros b. unfold is_cont. rewrite andb_true_iff, Z.leb_le, Z.ltb_lt.
  reflexivity.
Qed.

Lemma decode_1 :
  forall b0 r,
    0 <= b0 < 128 -> decode (b0 :: r) = option_map (cons b0) (decode r).
Proof.
  intros b0 r H. cbn [decode]. ltb_cases b0 0. ltb_cases b0 128. reflexivity.
Qed.

Lemma decode_2 :
  forall b0 b1 r c,
    192 <= b0 < 224 -> 128 <= b1 < 192 ->
    c = (b0 - 192) * 64 + (b1 - 128) -> 128 <= c ->
    decode (b0 :: b1 :: r) = option_map (cons c) (decode r).
Proof.
  intros b0 b1 r c H0 H1 Hc Hr. cbn [decode].
  ltb_cases b0 0. ltb_cases b0 128. ltb_cases b0 192. ltb_cases b0 224.
  rewrite (proj2 (is_cont_iff b1) H1), <- Hc, (proj2 (Z.leb_le 128 c) Hr).
  reflexivity.
Qed.

Lemma decode_3 :
  forall b0 b1 b2 r c,
    224 <= b0 < 240 -> 128 <= b1 < 192 -> 128 <= b2 < 192 ->
    c = (b0 - 224) * 4096 + (b1 - 128) * 64 + (b2 - 128) ->
    2048 <= c -> is_surrogate c = false ->
    decode (b0 :: b1 :: b2 :: r) = option_map (cons c) (decode r).
Proof.
  intros b0 b1 b2 r c H0 H1 H2 Hc Hr Hs. cbn [decode].
  ltb_cases b0 0. ltb_cases b0 128. ltb_cases b0 192. ltb_cases b0 224.
  ltb_cases b0 240.
  rewrite (proj2 (is_cont_iff b1) H1), (proj2 (is_cont_iff b2) H2), <- Hc,
    (proj2 (Z.leb_le 2048 c) Hr), Hs.
  reflexivity.
Qed.

Lemma decode_4 :
  forall b0 b1 b2 b3 r c,
    240 <= b0 < 248 -> 128 <= b1 < 192 -> 128 <= b2 < 192 -> 128 <= b3 < 192 ->
    c = (b0 - 240) * 262144 + (b1 - 128) * 4096 + (b2 - 128) * 64 + (b3 - 128) ->
    65536 <= c < 1114112 ->
    decode (b0 :: b1 :: b2 :: b3 :: r) = option_map (cons c) (decode r).
Proof.
  intros b0 b1 b2 b3 r c H0 H1 H2 H3 Hc Hr. cbn [decode].
  ltb_cases b0 0. ltb_cases b0 128. ltb_cases b0 192. ltb_cases b0 224.
  ltb_cases b0 240. ltb_cases b0 248.
  rewrite (proj2 (is_cont_iff b1) H1), (proj2 (is_cont_iff b2) H2),
    (proj2 (is_cont_iff b3) H3), <- Hc,
    (proj2 (Z.leb_le 65536 c) (proj1 Hr)),
    (proj2 (Z.ltb_lt c 1114112) (proj2 Hr)).
  reflexivity.
Qed.

Lemma Some_eq : forall (A : Type) (a b : A), Some a = Some b -> a = b.
Proof. intros A a b H. congruence. Qed.

Ltac divmod := Z.div_mod_to_equations; lia.

Lemma decode_encode_char :
  forall c bc r,
    encode_char c = Some bc ->
    decode (bc ++ r) = option_map (cons c) (decode r).
Proof.
  intros c bc r. unfold encode_char.
  destruct (c <? 0) eqn:H0; [discriminate|].
  destruct (c <? 128) eqn:H1.
  { intros H. apply Some_eq in H. subst bc. ztest. apply decode_1. lia. }
  destruct (c <? 2048) eqn:H2.
  { intros H. apply Some_eq in H. subst bc. ztest. apply decode_2; divmod. }
  destruct (c <? 65536) eqn:H3.
  { destruct (is_surrogate c) eqn:Hs; [discriminate|].
    intros H. apply Some_eq in H. subst bc. ztest. apply decode_3; try assumption; divmod. }
  destruct (c <? 1114112) eqn:H4; [|discriminate].
  intros H. apply Some_eq in H. subst bc. ztest. apply decode_4; divmod.
Qed.

Lemma encode_cons :
  forall c s b,
    encode (c :: s) = Some b ->
    exists bc bs, encode_char c = Some bc /\ encode s = Some bs /\ b = bc ++ bs.
Proof.
  intros c s b H. simpl in H.
  destruct (encode_char c) as [bc|]; [|discriminate].
  destruct (encode s) as [bs|]; [|discriminate].
  inversion H. exists bc, bs. auto.
Qed.

Lemma decode_encode :
  forall s b, encode s = Some b -> decode b = Some s.
Proof.
  induction s as [|c s IH]; intros b H.
  - inversion H. reflexivity.
  - apply encode_cons in H. destruct H as [bc [bs [Hc [Hs Hb]]]]. subst b.
    rewrite (decode_encode_char c bc bs Hc), (IH bs Hs). reflexivity.
Qed.

Lemma encode_app :
  forall s1 s2 b1 b2,
    encode s1 = Some b1 -> encode s2 = Some b2 ->
    encode (s1 ++ s2) = Some (b1 ++ b2).
Proof.
  induction s1 as [|c s1 IH]; intros s2 b1 b2 H1 H2.
  - inversion H1. assumption.
  - apply encode_cons in H1. destruct H1 as [bc [bs [Hc [Hs Hb]]]]. subst b1.
    simpl. rewrite Hc, (IH s2 bs b2 Hs H2), <- app_assoc. reflexivity.
Qed.

Lemma encode_app_inv :
  forall s1 s2 b,
    encode (s1 ++ s2) = Some b ->
    exists b1 b2, encode s1 = Some b1 /\ encode s2 = Some b2 /\ b = b1 ++ b2.
Proof.
  induction s1 as [|c s1 IH]; intros s2 b H.
  - exists [], b. auto.
  - simpl app in H. apply encode_cons in H.
    destruct H as [bc [bs [Hc [Hs Hb]]]].
    destruct (IH s2 bs Hs) as [b1 [b2 [E1 [E2 E3]]]].
    exists (bc ++ b1), b2. simpl. rewrite Hc, E1. subst.
    rewrite app_assoc. auto.
Qed.

Lemma isspace_ascii : forall b, isspace b = true -> 0 <= b < 128.
Proof.
  intros b. unfold isspace. intros H. apply orb_true_iff in H.
  destruct H as [H|H].
  - apply andb_true_iff in H. destruct H. ztest. lia.
  - apply Z.eqb_eq in H. lia.
Qed.

Lemma encode_char_ascii : forall c, 0 <= c < 128 -> encode_char c = Some [c].
Proof.
  intros c H. unfold encode_char. zdecide. reflexivity.
Qed.

Lemma encode_ws :
  forall d, forallb isspace d = true -> encode d = Some d.
Proof.
  induction d as [|c d IH]; intros H; [reflexivity|].
  simpl in H. apply andb_true_iff in H. destruct H as [Hc Hd].
  simpl. rewrite (encode_char_ascii c (isspace_ascii c Hc)), (IH Hd).
  reflexivity.
Qed.


Lemma encode_char_high :
  forall c bc,
    encode_char c = Some bc -> 128 <= c ->
    exists b0 r, bc = b0 :: r /\ Forall (fun b => 128 <= b) bc.
Proof.
  intros c bc. unfold encode_char.
  destruct (c <? 0) eqn:H0; [discriminate|].
  destruct (c <? 128) eqn:H1; [intros _ H; ztest; lia|].
  destruct (c <? 2048) eqn:H2.
  { intros H _. apply Some_eq in H. subst bc. ztest.
    eexists. eexists. split; [reflexivity|].
    repeat (apply Forall_cons; [divmod|]). apply Forall_nil. }
  destruct (c <? 65536) eqn:H3.
  { destruct (is_surrogate c); [discriminate|].
    intros H _. apply Some_eq in H. subst bc. ztest.
    eexists. eexists. split; [reflexivity|].
    repeat (apply Forall_cons; [divmod|]). apply Forall_nil. }
  destruct (c <? 1114112) eqn:H4; [|discriminate].
  intros H _. apply Some_eq in H. subst bc. ztest.
  eexists. eexists. split; [reflexivity|].
  repeat (apply Forall_cons; [divmod|]). apply Forall_nil.
Qed.

Lemma encode_char_nonneg :
  forall c bc, encode_char c = Some bc -> 0 <= c.
Proof.
  intros c bc. unfold encode_char.
  destruct (c <? 0) eqn:H0; [discriminate|]. intros _. ztest. lia.
Qed.

Lemma isspace_high : forall b, 128 <= b -> isspace b = false.
Proof.
  intros b H. destruct (isspace b) eqn:E; [|reflexivity].
  apply isspace_ascii in E. lia.
Qed.

(** Trimming ASCII whitespace commutes with encoding: the bytes of a
    character that is not ASCII whitespace are no whitespace bytes. *)
Lemma encode_ltrim :
  forall s b, encode s = Some b -> encode (ltrim s) = Some (ltrim b).
Proof.
  induction s as [|c s IH]; intros b H.
  - apply Some_eq in H. subst b. reflexivity.
  - pose proof H as H'. apply encode_cons in H'.
    destruct H' as [bc [bs [Hc [Hs Hb]]]]. subst b.
    cbn [ltrim]. destruct (isspace c) eqn:Ec.
    + rewrite (encode_char_ascii c (isspace_ascii c Ec)) in Hc.
      apply Some_eq in Hc. subst bc. cbn [app ltrim]. rewrite Ec.
      apply IH. assumption.
    + rewrite H. f_equal.
      destruct (Z.lt_ge_cases c 128) as [Hlt|Hge].
      * rewrite (encode_char_ascii c) in Hc
          by (split; [exact (encode_char_nonneg c bc Hc) | exact Hlt]).
        apply Some_eq in Hc. subst bc. cbn [app ltrim]. rewrite Ec. reflexivity.
      * destruct (encode_char_high c bc Hc Hge) as [b0 [r [E F]]]. subst bc.
        inversion F as [|? ? F0 F1]; subst.
        cbn [app ltrim]. rewrite (isspace_high b0 F0). reflexivity.
Qed.

Lemma encode_rtrim :
  forall s b, encode s = Some b -> encode (rtrim s) = Some (rtrim b).
Proof.
  induction s as [|c s IH] using rev_ind; intros b H.
  - apply Some_eq in H. subst b. reflexivity.
  - pose proof H as H'. apply encode_app_inv in H'.
    destruct H' as [b1 [b2 [E1 [E2 E3]]]]. subst b.
    apply encode_cons in E2. destruct E2 as [bc [bn [Hc [Hn Hb]]]].
    apply Some_eq in Hn. subst bn b2. rewrite app_nil_r in *.
    rewrite rtrim_snoc. destruct (isspace c) eqn:Ec.
    + rewrite (encode_char_ascii c (isspace_ascii c Ec)) in Hc.
      apply Some_eq in Hc. subst bc. rewrite rtrim_snoc, Ec.
      apply IH. assumption.
    + rewrite H. f_equal.
      destruct (Z.lt_ge_cases c 128) as [Hlt|Hge].
      * rewrite (encode_char_ascii c) in Hc
          by (split; [exact (encode_char_nonneg c bc Hc) | exact Hlt]).
        apply Some_eq in Hc. subst bc. rewrite rtrim_snoc, Ec. reflexivity.
      * destruct (encode_char_high c bc Hc Hge) as [b0 [r [E F]]].
        destruct (exists_last (l := bc)) as [bc' [x Ex]];
          [rewrite E; discriminate|].
        rewrite Ex in F. apply Forall_app in F. destruct F as [_ F].
        inversion F as [|? ? F0 F1]; subst.
        rewrite Ex, app_assoc, rtrim_snoc, (isspace_high x F0). reflexivity.
Qed.

Lemma encode_trimmed :
  forall s b, encode s = Some b -> encode (trimmed s) = Some (trimmed b).
Proof.
  intros s b H. unfold trimmed. apply encode_rtrim, encode_ltrim. assumption.
Qed.

Lemma decode_trimmed_encode :
  forall s b, encode s = Some b -> decode (trimmed b) = Some (trimmed s).
Proof.
  intros s b H. apply decode_encode, encode_trimmed. assumption.
Qed.

(** An ASCII delimiter is found in the encoded text where it is found in
    the text. *)
Lemma startswith_encode :
  forall d t tb,
    Forall (fun x => 0 <= x < 128) d -> encode t = Some tb ->
    startswith tb d = startswith t d.
Proof.
  induction d as [|x d IH]; intros t tb Hd Ht.
  - rewrite !startswith_nil. reflexivity.
  - inversion Hd as [|? ? Hx Hd']; subst.
    destruct t as [|c t].
    + apply Some_eq in Ht. subst tb. reflexivity.
    + apply encode_cons in Ht. destruct Ht as [bc [bs [Hc [Hs Hb]]]]. subst tb.
      destruct (Z.lt_ge_cases c 128) as [Hlt|Hge].
      * rewrite (encode_char_ascii c) in Hc
          by (split; [exact (encode_char_nonneg c bc Hc) | exact Hlt]).
        apply Some_eq in Hc. subst bc. cbn [app startswith].
        rewrite (IH t bs Hd' Hs). reflexivity.
      * destruct (encode_char_high c bc Hc Hge) as [b0 [r [E F]]]. subst bc.
        inversion F as [|? ? F0 F1]; subst.
        cbn [app startswith].
        replace (b0 =? x) with false by (symmetry; apply Z.eqb_neq; lia).
        replace (c =? x) with false by (symmetry; apply Z.eqb_neq; lia).
        reflexivity.
Qed.

Lemma contains_skip_high :
  forall bc bs x d,
    Forall (fun b => 128 <= b) bc -> 0 <= x < 128 ->
    contains (bc ++ bs) (x :: d) = contains bs (x :: d).
Proof.
  induction bc as [|b bc IH]; intros bs x d F Hx; [reflexivity|].
  inversion F as [|? ? F0 F1]; subst.
  cbn [app].
  change (contains (b :: bc ++ bs) (x :: d))
    with (startswith (b :: bc ++ bs) (x :: d) || contains (bc ++ bs) (x :: d)).
  cbn [startswith].
  replace (b =? x) with false by (symmetry; apply Z.eqb_neq; lia).
  cbn [andb orb]. apply IH; assumption.
Qed.

Lemma contains_encode :
  forall t tb x d,
    Forall (fun x => 0 <= x < 128) (x :: d) -> encode t = Some tb ->
    contains tb (x :: d) = contains t (x :: d).
Proof.
  induction t as [|c t IH]; intros tb x d Hd Ht.
  - apply Some_eq in Ht. subst tb. reflexivity.
  - pose proof Ht as Ht'.
    apply encode_cons in Ht'. destruct Ht' as [bc [bs [Hc [Hs Hb]]]]. subst tb.
    inversion Hd as [|? ? Hx Hd']; subst.
    change (contains (c :: t) (x :: d))
      with (startswith (c :: t) (x :: d) || contains t (x :: d)).
    rewrite <- (IH bs x d Hd Hs).
    destruct (Z.lt_ge_cases c 128) as [Hlt|Hge].
    + rewrite <- (startswith_encode (x :: d) (c :: t) (bc ++ bs) Hd Ht).
      rewrite (encode_char_ascii c) in Hc
        by (split; [exact (encode_char_nonneg c bc Hc) | exact Hlt]).
      apply Some_eq in Hc. subst bc. reflexivity.
    + destruct (encode_char_high c bc Hc Hge) as [b0 [r [E F]]].
      rewrite (contains_skip_high bc bs x d F Hx).
      cbn [startswith].
      replace (c =? x) with false by (symmetry; apply Z.eqb_neq; lia).
      reflexivity.
Qed.

Lemma forallb_isspace_ascii :
  forall d, forallb isspace d = true -> Forall (fun x => 0 <= x < 128) d.
Proof.
  intros d H. apply Forall_forall. intros x Hx.
  apply isspace_ascii. revert x Hx. apply forallb_forall. assumption.
Qed.

(** ** Sending and reading back *)

Lemma spec_read_until_found :
  forall d buf script,
    contains buf d = true -> spec_read_until d buf script = (buf, script, false).
Proof.
  intros d buf [|[bs|] script] H; simpl; rewrite H; reflexivity.
Qed.

(** Where the bytes the peer sends without a pause hold the delimiter, the
    loop ends, without a timeout, after the first chunk that completes it. *)
Lemma spec_read_until_stops :
  forall (d : bytes) (chunks : list bytes) (buf : bytes)
         (rest : list (option bytes)),
    contains (buf ++ List.concat chunks) d = true ->
    exists k,
      spec_read_until d buf (map Some chunks ++ rest) =
      (buf ++ List.concat (firstn k chunks),
       map Some (skipn k chunks) ++ rest, false) /\
      contains (buf ++ List.concat (firstn k chunks)) d = true.
Proof.
  induction chunks as [|c chunks IH]; intros buf rest H.
  - exists O. simpl in *. split; [|assumption].
    rewrite app_nil_r in *. apply spec_read_until_found. assumption.
  - destruct (contains buf d) eqn:Hc.
    + exists O. simpl firstn. simpl skipn. simpl List.concat.
      rewrite app_nil_r. split; [|assumption].
      apply spec_read_until_found. assumption.
    + simpl in H. rewrite app_assoc in H.
      destruct (IH (buf ++ c) rest H) as [k [E C]].
      exists (S k). simpl. rewrite Hc, app_assoc. split; assumption.
Qed.

Lemma prefix_with_delimiter :
  forall p q tb d : list Z,
    p ++ q = tb ++ d -> contains p d = true -> contains tb d = false ->
    exists d1 d2, p = tb ++ d1 /\ d = d1 ++ d2.
Proof.
  intros p q tb d E Hp Ht.
  destruct (app_eq_app _ _ _ _ E) as [l [[E1 E2]|[E1 E2]]].
  - exists l, q. split; assumption.
  - rewrite E1, (contains_app_l p l d Hp) in Ht. discriminate.
Qed.

Lemma forallb_app_l :
  forall (f : Z -> bool) a b, forallb f (a ++ b) = true -> forallb f a = true.
Proof.
  intros f a b H. rewrite forallb_app in H. apply andb_true_iff in H. tauto.
Qed.

(** [sendData] on an open port writes the encoded text and delimiter, and
    leaves the receiving side alone. *)
Lemma sendData_writes :
  forall st data cmd,
    isOpen st = true -> encode (data ++ eol st) = Some cmd ->
    exists st1,
      sendData data st = (Ok tt, st1) /\
      written st1 = written st ++ [cmd] /\
      isOpen st1 = true /\ readyRead st1 = readyRead st /\ rx st1 = rx st /\
      buffer st1 = buffer st /\ eol st1 = eol st /\ incoming st1 = incoming st.
Proof.
  intros st data cmd Ho He. unfold sendData, write, waitForBytesWritten. run.
  rewrite He. simpl. rewrite Ho. simpl.
  destruct (_sync st); simpl.
  - rewrite Ho. destruct (acks st) as [|[|] r]; simpl;
      eexists; (split; [reflexivity|]); simpl; auto 10.
  - eexists. split; [reflexivity|]. simpl. auto 10.
Qed.

(** With [";"] as delimiter the delimiter comes back with the text. *)
Lemma round_trip_keeps_other_delimiter :
  contains (text "abc") (text ";") = false /\
  fst ((sendData (text "abc") ;; getData)
         (session (text ";") true [Some (text "abc;")])) = Ok (text "abc;") /\
  text "abc;" <> trimmed (text "abc").
Proof. repeat split; try reflexivity. discriminate. Qed.

(** C5, as the code has it.  For a delimiter made of ASCII whitespace (as
    the default, carriage return) and a text that encodes and does not hold
    the delimiter: on an open port in synchronous mode with nothing
    buffered, [sendData] writes the encoded text followed by the delimiter,
    and when the peer sends these bytes back without a pause, in one piece
    or in several, [getData] returns the text with the ASCII whitespace at
    its ends stripped. *)
Theorem round_trip_whitespace_delimiter :
  forall (st : QSerialDevice) (t : str) (tb : bytes)
         (chunks : list bytes) (rest : list (option bytes)),
    isOpen st = true -> readyRead st = [] -> rx st = [] -> buffer st = [] ->
    forallb isspace (eol st) = true ->
    contains t (eol st) = false ->
    encode t = Some tb ->
    incoming st = map Some chunks ++ rest ->
    List.concat chunks = tb ++ eol st ->
    fst ((sendData t ;; getData) st) = Ok (trimmed t) /\
    written (snd ((sendData t ;; getData) st)) =
    written st ++ [tb ++ eol st] /\
    buffer (snd ((sendData t ;; getData) st)) = [].
Proof.
  intros st t tb chunks rest Ho Hr Hx Hb Hw Hn Ht Hi Hcat.
  pose proof (encode_ws (eol st) Hw) as Hd.
  assert (Hbytes : contains tb (eol st) = false).
  { destruct (eol st) as [|x d] eqn:Ee.
    - destruct t; discriminate.
    - rewrite (contains_encode t tb x d (forallb_isspace_ascii _ Hw) Ht).
      assumption. }
  destruct (sendData_writes st t (tb ++ eol st) Ho
              (encode_app t (eol st) tb (eol st) Ht Hd))
    as [st1 [E1 [W1 [O1 [R1 [X1 [B1 [L1 I1]]]]]]]].
  assert (Hd1 : encode (eol st1) = Some (eol st)) by (rewrite L1; exact Hd).
  destruct (spec_read_until_stops (eol st) chunks [] rest) as [k [E C]].
  { simpl. rewrite Hcat. apply contains_delimiter_at_end. }
  simpl in E, C.
  destruct (prefix_with_delimiter (List.concat (firstn k chunks))
              (List.concat (skipn k chunks)) tb (eol st)) as [d1 [d2 [P D]]];
    try assumption.
  { rewrite <- concat_app, firstn_skipn. assumption. }
  assert (Hs : decode (trimmed (List.concat (firstn k chunks))) =
               Some (trimmed t)).
  { rewrite P, trimmed_app_ws
      by (apply (forallb_app_l isspace d1 d2); rewrite <- D; assumption).
    apply decode_trimmed_encode. assumption. }
  assert (Hall : exists st',
             (sendData t ;; getData) st = (Ok (trimmed t), st') /\
             written st' = written st ++ [tb ++ eol st] /\ buffer st' = []).
  { unfold bind at 1. rewrite E1. unfold getData. run.
    rewrite (while_getData_sync (incoming st1) _ st1 (eol st)
               O1 (eq_trans R1 Hr) (eq_trans X1 Hx) Hd1 eq_refl
               (Nat.lt_succ_diag_r _)).
    rewrite I1, Hi, B1, Hb, E. simpl. rewrite Hs. simpl.
    eexists. split; [reflexivity|]. simpl. split; [assumption | reflexivity]. }
  destruct Hall as [st' [E' [W' B']]]. rewrite E'. simpl. auto.
Qed.

Lemma round_trip_whitespace_delimiter_witness :
  fst ((sendData (text " hello") ;; getData)
         (session CR true [Some (text " hel"); Some (text "lo" ++ CR)])) =
  Ok (text "hello").
Proof.
  exact (proj1 (round_trip_whitespace_delimiter
                  (session CR true [Some (text " hel"); Some (text "lo" ++ CR)])
                  (text " hello") (text " hello")
                  [text " hel"; text "lo" ++ CR] []
                  eq_refl eq_refl eq_refl eq_refl eq_refl eq_refl eq_refl
                  eq_refl eq_refl)).
Defined.

(** ** The codec the other way round, and trimming twice *)

Lemma encode_char_2 :
  forall b0 b1 c,
    192 <= b0 < 224 -> 128 <= b1 < 192 ->
    c = (b0 - 192) * 64 + (b1 - 128) -> 128 <= c ->
    encode_char c = Some [b0; b1].
Proof.
  intros b0 b1 c H0 H1 Hc Hr. unfold encode_char.
  replace (c <? 0) with false by (symmetry; apply Z.ltb_ge; lia).
  replace (c <? 128) with false by (symmetry; apply Z.ltb_ge; lia).
  replace (c <? 2048) with true by (symmetry; apply Z.ltb_lt; lia).
  f_equal. f_equal; [|f_equal]; divmod.
Qed.

Lemma encode_char_3 :
  forall b0 b1 b2 c,
    224 <= b0 < 240 -> 128 <= b1 < 192 -> 128 <= b2 < 192 ->
    c = (b0 - 224) * 4096 + (b1 - 128) * 64 + (b2 - 128) ->
    2048 <= c -> is_surrogate c = false ->
    encode_char c = Some [b0; b1; b2].
Proof.
  intros b0 b1 b2 c H0 H1 H2 Hc Hr Hs. unfold encode_char. rewrite Hs.
  replace (c <? 0) with false by (symmetry; apply Z.ltb_ge; lia).
  replace (c <? 128) with false by (symmetry; apply Z.ltb_ge; lia).
  replace (c <? 2048) with false by (symmetry; apply Z.ltb_ge; lia).
  replace (c <? 65536) with true by (symmetry; apply Z.ltb_lt; lia).
  f_equal. f_equal; [|f_equal; [|f_equal]]; divmod.
Qed.

Lemma encode_char_4 :
  forall b0 b1 b2 b3 c,
    240 <= b0 < 248 -> 128 <= b1 < 192 -> 128 <= b2 < 192 -> 128 <= b3 < 192 ->
    c = (b0 - 240) * 262144 + (b1 - 128) * 4096 + (b2 - 128) * 64 + (b3 - 128) ->
    65536 <= c < 1114112 ->
    encode_char c = Some [b0; b1; b2; b3].
Proof.
  intros b0 b1 b2 b3 c H0 H1 H2 H3 Hc Hr. unfold encode_char.
  replace (c <? 0) with false by (symmetry; apply Z.ltb_ge; lia).
  replace (c <? 128) with false by (symmetry; apply Z.ltb_ge; lia).
  replace (c <? 2048) with false by (symmetry; apply Z.ltb_ge; lia).
  replace (c <? 65536) with false by (symmetry; apply Z.ltb_ge; lia).
  replace (c <? 1114112) with true by (symmetry; apply Z.ltb_lt; lia).
  f_equal. f_equal; [|f_equal; [|f_equal; [|f_equal]]]; divmod.
Qed.

Lemma option_map_cons_Some :
  forall (c : Z) (o : option str) (s : str),
    option_map (cons c) o = Some s -> exists s', o = Some s' /\ s = c :: s'.
Proof.
  intros c [s'|] s H; simpl in H; [|discriminate].
  apply Some_eq in H. exists s'. auto.
Qed.

Lemma encode_step :
  forall c bc s' r,
    encode_char c = Some bc -> encode s' = Some r ->
    encode (c :: s') = Some (bc ++ r).
Proof. intros c bc s' r Hc Hs. simpl. rewrite Hc, Hs. reflexivity. Qed.

Lemma encode_decode_bounded :
  forall n b s,
    (List.length b <= n)%nat -> decode b = Some s -> encode s = Some b.
Proof.
  induction n as [|n IH]; intros b s Hn H.
  - destruct b; [|simpl in Hn; lia]. apply Some_eq in H. subst s. reflexivity.
  - destruct b as [|b0 r0]; [apply Some_eq in H; subst s; reflexivity|].
    cbn [decode] in H. simpl in Hn.
    destruct (Z.ltb_spec b0 0); [discriminate|].
    destruct (Z.ltb_spec b0 128).
    { apply option_map_cons_Some in H. destruct H as [s' [E ->]].
      apply (encode_step b0 [b0] s' r0).
      - apply encode_char_ascii. lia.
      - apply IH; [lia | assumption]. }
    destruct (Z.ltb_spec b0 192); [discriminate|].
    destruct (Z.ltb_spec b0 224).
    { destruct r0 as [|b1 r1]; [discriminate|].
      destruct (is_cont b1) eqn:C1; [|discriminate].
      destruct (128 <=? (b0 - 192) * 64 + (b1 - 128)) eqn:R; [|discriminate].
      cbn [andb] in H.
      apply option_map_cons_Some in H. destruct H as [s' [E ->]].
      apply is_cont_iff in C1. apply Z.leb_le in R.
      apply (encode_step _ [b0; b1] s' r1).
      - apply encode_char_2; auto; lia.
      - apply IH; [simpl in Hn; lia | assumption]. }
    destruct (Z.ltb_spec b0 240).
    { destruct r0 as [|b1 [|b2 r2]]; try discriminate.
      destruct (is_cont b1) eqn:C1; [|discriminate].
      destruct (is_cont b2) eqn:C2; [|discriminate].
      destruct (2048 <=? (b0 - 224) * 4096 + (b1 - 128) * 64 + (b2 - 128))
        eqn:R; [|discriminate].
      destruct (is_surrogate ((b0 - 224) * 4096 + (b1 - 128) * 64 + (b2 - 128)))
        eqn:S; [discriminate|].
      cbn [andb negb] in H.
      apply option_map_cons_Some in H. destruct H as [s' [E ->]].
      apply is_cont_iff in C1. apply is_cont_iff in C2. apply Z.leb_le in R.
      apply (encode_step _ [b0; b1; b2] s' r2).
      - apply encode_char_3; auto; lia.
      - apply IH; [simpl in Hn; lia | assumption]. }
    destruct (Z.ltb_spec b0 248); [|discriminate].
    destruct r0 as [|b1 [|b2 [|b3 r3]]]; try discriminate.
    destruct (is_cont b1) eqn:C1; [|discriminate].
    destruct (is_cont b2) eqn:C2; [|discriminate].
    destruct (is_cont b3) eqn:C3; [|discriminate].
    destruct (65536 <=? (b0 - 240) * 262144 + (b1 - 128) * 4096
                        + (b2 - 128) * 64 + (b3 - 128)) eqn:R; [|discriminate].
    destruct ((b0 - 240) * 262144 + (b1 - 128) * 4096
              + (b2 - 128) * 64 + (b3 - 128) <? 1114112) eqn:R'; [|discriminate].
    cbn [andb] in H.
    apply option_map_cons_Some in H. destruct H as [s' [E ->]].
    apply is_cont_iff in C1. apply is_cont_iff in C2. apply is_cont_iff in C3.
    apply Z.leb_le in R. apply Z.ltb_lt in R'.
    apply (encode_step _ [b0; b1; b2; b3] s' r3).
    + apply encode_char_4; auto; lia.
    + apply IH; [simpl in Hn; lia | assumption].
Qed.

Lemma encode_decode :
  forall b s, decode b = Some s -> encode s = Some b.
Proof.
  intros b s. apply (encode_decode_bounded (List.length b)). apply Nat.le_refl.
Qed.

Lemma ltrim_idem : forall l, ltrim (ltrim l) = ltrim l.
Proof.
  induction l as [|b l IH]; [reflexivity|].
  simpl. destruct (isspace b) eqn:E; [assumption|].
  simpl. rewrite E. reflexivity.
Qed.

Lemma ltrim_suffix :
  forall l, exists w, l = w ++ ltrim l /\ forallb isspace w = true.
Proof.
  induction l as [|b l [w [E F]]].
  - exists []. auto.
  - simpl. destruct (isspace b) eqn:Eb.
    + exists (b :: w). simpl. rewrite Eb, F, <- E. auto.
    + exists []. auto.
Qed.

Lemma rtrim_idem : forall l, rtrim (rtrim l) = rtrim l.
Proof.
  intros l. unfold rtrim. rewrite rev_involutive, ltrim_idem. reflexivity.
Qed.

(** Cutting whitespace off the end of a list that does not start with
    whitespace leaves a list that does not start with whitespace. *)
Lemma ltrim_rtrim_fixed :
  forall m, ltrim m = m -> ltrim (rtrim m) = rtrim m.
Proof.
  intros m Hm.
  destruct (ltrim_suffix (rev m)) as [w [E F]].
  assert (Em : m = rtrim m ++ rev w).
  { unfold rtrim. rewrite <- rev_app_distr, <- E, rev_involutive. reflexivity. }
  destruct (rtrim m) as [|x p] eqn:Ep; [reflexivity|].
  rewrite Em in Hm. simpl in Hm. simpl.
  destruct (isspace x) eqn:Ex; [|reflexivity].
  exfalso.
  destruct (ltrim_suffix (p ++ rev w)) as [w' [E' F']].
  rewrite Hm in E'.
  apply (f_equal (@List.length Z)) in E'.
  rewrite !length_app in E'. simpl in E'. rewrite !length_app in E'. lia.
Qed.

Lemma trimmed_idem : forall l, trimmed (trimmed l) = trimmed l.
Proof.
  intros l. unfold trimmed.
  rewrite (ltrim_rtrim_fixed (ltrim l) (ltrim_idem l)). apply rtrim_idem.
Qed.

Lemma decode_trimmed_is_trimmed :
  forall b s, decode (trimmed b) = Some s -> trimmed s = s.
Proof.
  intros b s H.
  pose proof (decode_trimmed_encode s (trimmed b) (encode_decode _ _ H)) as H'.
  rewrite trimmed_idem, H in H'. apply Some_eq in H'. symmetry. assumption.
Qed.

(** ** What comes out is trimmed *)

(** X1.  A string that [getData] returns has no ASCII whitespace at either
    end: trimming it again changes nothing.  In particular it never ends
    with a carriage return or a line feed. *)
Theorem getData_returns_trimmed :
  forall (st st' : QSerialDevice) (s : str),
    getData st = (Ok s, st') -> trimmed s = s.
Proof.
  intros st st' s. unfold getData. run.
  destruct (while_ (S (List.length (incoming st))) getData_cond getData_body st)
    as [[u|e] st1]; simpl; [|discriminate].
  destruct (decode (trimmed (buffer st1))) as [s1|] eqn:E; simpl;
    [|discriminate].
  intros H. inversion H; subst.
  apply (decode_trimmed_is_trimmed (buffer st1)). assumption.
Qed.

Lemma getData_returns_trimmed_witness :
  fst (getData (session CR true [Some (text "  ok " ++ CR)])) = Ok (text "ok") /\
  trimmed (text "ok") = text "ok".
Proof.
  split; [reflexivity|].
  apply (getData_returns_trimmed
           (session CR true [Some (text "  ok " ++ CR)])
           (snd (getData (session CR true [Some (text "  ok " ++ CR)])))
           (text "ok")).
  vm_compute. reflexivity.
Defined.

(** X2.  One call of [receive] emits [dataReady] at most once; when it
    does, the call has succeeded, the buffer is empty, and the string
    emitted has no ASCII whitespace at either end. *)
Theorem receive_emits_trimmed :
  forall st : QSerialDevice,
    emitted (snd (receive st)) = emitted st \/
    exists s : str,
      emitted (snd (receive st)) = emitted st ++ [s] /\
      trimmed s = s /\
      fst (receive st) = Ok tt /\
      buffer (snd (receive st)) = [].
Proof.
  intros st. unfold receive. run.
  destruct (encode (eol st)) as [d|]; simpl; [|left; reflexivity].
  destruct (contains (buffer st ++ rx st) d); simpl; [|left; reflexivity].
  destruct (decode (trimmed (buffer st ++ rx st))) as [s|] eqn:E; simpl;
    [|left; reflexivity].
  right. exists s. repeat split.
  apply (decode_trimmed_is_trimmed (buffer st ++ rx st)). assumption.
Qed.

(** ** What reading and sending leave alone *)

Lemma receive_connection :
  forall st, connection (snd (receive st)) = connection st.
Proof.
  intros st. unfold receive. run.
  destruct (encode (eol st)) as [d|]; simpl; [|reflexivity].
  destruct (contains (buffer st ++ rx st) d); simpl; [|reflexivity].
  destruct (decode (trimmed (buffer st ++ rx st))); reflexivity.
Qed.

Lemma run_slots_connection :
  forall slots st, connection (snd (run_slots slots st)) = connection st.
Proof.
  induction slots as [|[] slots IH]; intros st; simpl; [reflexivity|].
  unfold bind. pose proof (receive_connection st) as H.
  destruct (receive st) as [[u|e] st1]; simpl in *.
  - rewrite IH. assumption.
  - assumption.
Qed.

Lemma getData_body_connection :
  forall st, connection (snd (getData_body st)) = connection st.
Proof.
  intros st. unfold getData_body, waitForReadyRead, arrive. run.
  destruct (isOpen st); [|reflexivity].
  destruct (incoming st) as [|[bs|] r]; simpl; try reflexivity.
  match goal with
  | |- context [run_slots ?l ?s] =>
    pose proof (run_slots_connection l s) as H;
    destruct (run_slots l s) as [[u|e] st1]
  end; simpl in *; assumption.
Qed.

Lemma getData_cond_state :
  forall st, snd (getData_cond st) = st.
Proof.
  intros st. unfold getData_cond. run.
  destruct (encode (eol st)); reflexivity.
Qed.

Lemma while_getData_connection :
  forall n st,
    connection (snd (while_ n getData_cond getData_body st)) = connection st.
Proof.
  induction n as [|n IH]; intros st; [reflexivity|].
  rewrite while_S. unfold bind.
  pose proof (getData_cond_state st) as Hc.
  destruct (getData_cond st) as [[c|e] st0]; simpl in Hc; subst st0;
    [|reflexivity].
  destruct c; [|reflexivity].
  pose proof (getData_body_connection st) as Hb.
  destruct (getData_body st) as [[go|e] st1]; simpl in Hb; [|assumption].
  destruct go; [|assumption].
  rewrite IH. assumption.
Qed.

(** X3.  Reading never sends and never reconfigures: [receive] and
    [getData] leave the delimiter, the timeout, the mode, the connections
    of [readyRead], the port, its settings, whether it is open, and the
    bytes written so far exactly as they found them, whether they return
    or raise. *)
Theorem reading_leaves_connection :
  forall st : QSerialDevice,
    connection (snd (receive st)) = connection st /\
    connection (snd (getData st)) = connection st.
Proof.
  intros st. split; [apply receive_connection|].
  unfold getData. run.
  pose proof (while_getData_connection (S (List.length (incoming st))) st) as H.
  destruct (while_ (S (List.length (incoming st))) getData_cond getData_body st)
    as [[u|e] st1]; simpl in *; [|assumption].
  destruct (decode (trimmed (buffer st1))); simpl; assumption.
Qed.

(** X4.  In asynchronous mode, where [sendData] does not wait, sending
    never touches the receiving side: whether it hands the block to the
    port or raises on a text that does not encode, the receive buffer, the
    unread bytes, the strings emitted and the peer's pending input are as
    before, and so are the mode, the connections of [readyRead] and the
    port's state. *)
Theorem sendData_leaves_receiving_side :
  forall (data : str) (st : QSerialDevice),
    _sync st = false ->
    receiving_side (snd (sendData data st)) = receiving_side st /\
    _sync (snd (sendData data st)) = false /\
    readyRead (snd (sendData data st)) = readyRead st /\
    isOpen (snd (sendData data st)) = isOpen st /\
    portOps (snd (sendData data st)) = portOps st /\
    acks (snd (sendData data st)) = acks st.
Proof.
  intros data st Hs. unfold sendData, write. run.
  destruct (encode (data ++ eol st)) as [cmd|]; simpl;
    [|repeat split; assumption].
  destruct (isOpen st) eqn:Ho; simpl; rewrite Hs; simpl;
    repeat split; assumption.
Qed.

Lemma sendData_leaves_receiving_side_witness :
  receiving_side (snd (sendData (text "go")
                         (session CR false [Some (text "ok" ++ CR)]))) =
  receiving_side (session CR false [Some (text "ok" ++ CR)]).
Proof.
  exact (proj1 (sendData_leaves_receiving_side (text "go")
                  (session CR false [Some (text "ok" ++ CR)]) eq_refl)).
Defined.

(** ** sendData *)

(** X5.  [sendData] raises exactly when the text followed by the delimiter
    does not encode (a lone surrogate), and then nothing has been handed to
    the port or logged: the object is untouched.  Otherwise, with a timeout
    the binding takes, it returns; on an open port it has handed one block
    of bytes to [write], none on a port that is not open, and the block
    decodes back to the text followed by the delimiter. *)
Theorem sendData_encodes_or_raises :
  forall (data : str) (st : QSerialDevice),
    (encode (data ++ eol st) = None ->
     sendData data st = (Raise UnicodeEncodeError, st)) /\
    (forall cmd : bytes,
        encode (data ++ eol st) = Some cmd ->
        c_int (timeout st) ->
        fst (sendData data st) = Ok tt /\
        written (snd (sendData data st)) =
        (if isOpen st then written st ++ [cmd] else written st) /\
        decode cmd = Some (data ++ eol st)).
Proof.
  intros data st. split.
  - intros He. unfold sendData. run. rewrite He. reflexivity.
  - intros cmd He _.
    pose proof (decode_encode _ _ He) as Hd.
    unfold sendData, write, waitForBytesWritten. run. rewrite He. simpl.
    destruct (isOpen st) eqn:Ho; simpl; destruct (_sync st); simpl;
      rewrite ?Ho; simpl; auto;
      destruct (acks st) as [|[|] r]; simpl; auto.
Qed.

Lemma sendData_encodes_or_raises_witness :
  written (snd (sendData (text "go") (session CR true []))) =
  [text "go" ++ CR] /\
  decode (text "go" ++ CR) = Some (text "go" ++ CR).
Proof.
  assert (C : c_int (timeout (session CR true []))) by (unfold c_int; simpl; lia).
  destruct (proj2 (sendData_encodes_or_raises (text "go") (session CR true []))
              (text "go" ++ CR) eq_refl C) as [_ [H1 H2]].
  split; assumption.
Defined.

(** ** The mode *)

(** X6.  Of two mode assignments in a row only the second counts: the
    object is what the second alone would have made it; and reading the
    property after an assignment gives the value assigned. *)
Theorem sync_setter_last_wins :
  forall (a b : bool) (st : QSerialDevice),
    (sync_setter a ;; sync_setter b) st = sync_setter b st /\
    (sync_setter b ;; sync) st = (Ok b, snd (sync_setter b st)).
Proof.
  intros a b st. unfold bind. rewrite !sync_setter_eq. split.
  - destruct st; reflexivity.
  - reflexivity.
Qed.

(** ** The empty delimiter *)

(** X7.  With the empty string as delimiter every buffer counts as
    complete: [getData] never waits for the port, it takes the buffer as it
    is (on an empty buffer it returns the empty string at once and leaves
    the peer's bytes unread), and [receive] emits on every notification. *)
Theorem empty_delimiter_never_waits :
  forall st : QSerialDevice,
    eol st = [] ->
    getData st = getData_ending st (buffer st) (incoming st) false /\
    (buffer st = [] ->
     fst (getData st) = Ok [] /\
     incoming (snd (getData st)) = incoming st /\
     rx (snd (getData st)) = rx st) /\
    (forall s, decode (trimmed (buffer st ++ rx st)) = Some s ->
               emitted (snd (receive st)) = emitted st ++ [s]).
Proof.
  intros st He.
  assert (Hc : forall b : bytes, contains b [] = true).
  { intros [|x b]; reflexivity. }
  assert (Hg : getData st = getData_ending st (buffer st) (incoming st) false).
  { unfold getData. run. rewrite while_S. unfold getData_cond. run.
    rewrite He. simpl. rewrite Hc. simpl. unfold getData_ending.
    destruct (decode (trimmed (buffer st))); destruct st; simpl;
      rewrite ?app_nil_r; reflexivity. }
  split; [exact Hg|]. split.
  - intros Hb. rewrite Hg. unfold getData_ending. rewrite Hb. simpl. auto.
  - intros s Hs. unfold receive. run. rewrite He. simpl. rewrite Hc. simpl.
    rewrite Hs. reflexivity.
Qed.

Lemma empty_delimiter_never_waits_witness :
  fst (getData (session [] true [Some (text "late")])) = Ok [] /\
  incoming (snd (getData (session [] true [Some (text "late")]))) =
  [Some (text "late")].
Proof.
  destruct (proj1 (proj2 (empty_delimiter_never_waits
                            (session [] true [Some (text "late")]) eq_refl))
                  eq_refl) as [H1 [H2 _]].
  split; assumption.
Defined.

(** ** Construction *)

Lemma setup_returns :
  forall id p st,
    (forall s, exists b, fst (id s) = Ok b) ->
    exists b, fst (setup id p st) = Ok b.
Proof.
  intros id [q|] st Hid; [|exists false; reflexivity].
  run_setup. destruct (isBusy q); simpl; [exists false; reflexivity|].
  destruct (isOpen st); simpl; [exists false; reflexivity|].
  destruct (opens q); simpl; [|exists false; reflexivity].
  match goal with
  | |- context [id ?s] =>
    destruct (Hid s) as [b Hb]; destruct (id s) as [[b'|e] s1]
  end; simpl in *; try discriminate;
  (destruct b'; simpl; [exists true; reflexivity|]);
  unfold close; destruct (isOpen s1); simpl; exists false; reflexivity.
Qed.

Lemma find_loop_returns :
  forall id ports st,
    (forall s, exists b, fst (id s) = Ok b) ->
    fst (find_loop id ports st) = Ok tt.
Proof.
  induction ports as [|q ports IH]; intros st Hid; [reflexivity|].
  cbn [find_loop]. unfold bind.
  destruct (setup_returns id (Some q) st Hid) as [b Hb].
  destruct (setup id (Some q) st) as [[b'|e] st1]; simpl in Hb; [|discriminate].
  destruct b'; [reflexivity | apply IH; assumption].
Qed.

Lemma bind_modify :
  forall (B : Type) (f : QSerialDevice -> QSerialDevice) (k : M B) st,
    (modify f ;; k) st = k (f st).
Proof. reflexivity. Qed.

Lemma bind_sync_setter :
  forall (B : Type) (state : bool) (k : M B) st,
    (sync_setter state ;; k) st =
    k (set_readyRead (if state then [] else [SlotReceive]) (set_sync state st)).
Proof. intros. unfold bind. rewrite sync_setter_eq. reflexivity. Qed.

(** The last two lines of [__init__], after whatever looked for the port. *)
Lemma init_outcome :
  forall (probe : M unit) (st0 : QSerialDevice),
    (fst ((probe ;;
           o <- get isOpen ;;
           if negb o then raise (ValueError "Could not find serial device")
           else ret tt) st0) = Ok tt ->
     isOpen (snd ((probe ;;
           o <- get isOpen ;;
           if negb o then raise (ValueError "Could not find serial device")
           else ret tt) st0)) = true) /\
    (fst (probe st0) = Ok tt ->
     fst ((probe ;;
           o <- get isOpen ;;
           if negb o then raise (ValueError "Could not find serial device")
           else ret tt) st0) = Ok tt \/
     (fst ((probe ;;
            o <- get isOpen ;;
            if negb o then raise (ValueError "Could not find serial device")
            else ret tt) st0) =
      Raise (ValueError "Could not find serial device") /\
      isOpen (snd ((probe ;;
            o <- get isOpen ;;
            if negb o then raise (ValueError "Could not find serial device")
            else ret tt) st0)) = false)).
Proof.
  intros probe st0. unfold bind, get, raise, ret.
  destruct (probe st0) as [[u|e0] st1]; simpl.
  - destruct (isOpen st1) eqn:Ho; simpl; split; auto; discriminate.
  - split; discriminate.
Qed.

(** X8.  An object whose construction returns is open; and where
    [identify] itself never raises and the four line settings are numbers
    the binding takes, construction either returns or raises
    [ValueError('Could not find serial device')] with the object not open:
    no other error comes out of it. *)
Theorem init_returns_open_or_raises_ValueError :
  forall (identify_ : M bool) (port_ : option QSerialPortInfo) (eol_ : str)
         (manufacturer_ : string)
         (baudrate_ databits_ parity_ stopbits_ timeout_ : Z) (sync_ : bool)
         (st : QSerialDevice),
    (fst (__init__ identify_ port_ eol_ manufacturer_ baudrate_ databits_
            parity_ stopbits_ timeout_ sync_ st) = Ok tt ->
     isOpen (snd (__init__ identify_ port_ eol_ manufacturer_ baudrate_
                    databits_ parity_ stopbits_ timeout_ sync_ st)) = true) /\
    ((forall s, exists b, fst (identify_ s) = Ok b) ->
     c_int baudrate_ -> c_int databits_ -> c_int parity_ -> c_int stopbits_ ->
     fst (__init__ identify_ port_ eol_ manufacturer_ baudrate_ databits_
            parity_ stopbits_ timeout_ sync_ st) = Ok tt \/
     (fst (__init__ identify_ port_ eol_ manufacturer_ baudrate_ databits_
             parity_ stopbits_ timeout_ sync_ st) =
      Raise (ValueError "Could not find serial device") /\
      isOpen (snd (__init__ identify_ port_ eol_ manufacturer_ baudrate_
                     databits_ parity_ stopbits_ timeout_ sync_ st)) = false)).
Proof.
  intros id port_ e m b db pa sb t sy st.
  unfold __init__. rewrite !bind_modify, bind_sync_setter.
  set (st0 := set_readyRead _ _).
  destruct port_ as [q|].
  - destruct (init_outcome (_ <- setup id (Some q) ;; ret tt) st0) as [H1 H2].
    split; [exact H1|]. intros Hid _ _ _ _. apply H2.
    unfold bind, ret. destruct (setup_returns id (Some q) st0 Hid) as [b0 Hb].
    destruct (setup id (Some q) st0) as [[b'|e0] st1]; simpl in *;
      [reflexivity | discriminate].
  - destruct (init_outcome (find id) st0) as [H1 H2].
    split; [exact H1|]. intros Hid _ _ _ _. apply H2.
    unfold find, bind, get, logger, modify.
    destruct (List.length (availablePorts st0) <? 1)%nat; [reflexivity|].
    apply find_loop_returns. assumption.
Qed.

Lemma init_returns_open_or_raises_ValueError_witness :
  isOpen (snd (__init__ identify (Some ttyUSB0) CR "Prolific" 9600 8 0 1 1000
                 false (QSerialPort_new [ttyUSB0] [] []))) = true /\
  (fst (__init__ identify None CR "Prolific" 9600 8 0 1 1000 false
          (QSerialPort_new [ttyBusy] [] [])) = Ok tt \/
   (fst (__init__ identify None CR "Prolific" 9600 8 0 1 1000 false
           (QSerialPort_new [ttyBusy] [] [])) =
    Raise (ValueError "Could not find serial device") /\
    isOpen (snd (__init__ identify None CR "Prolific" 9600 8 0 1 1000 false
                   (QSerialPort_new [ttyBusy] [] []))) = false)).
Proof.
  split.
  - apply (proj1 (init_returns_open_or_raises_ValueError identify
                    (Some ttyUSB0) CR "Prolific" 9600 8 0 1 1000 false
                    (QSerialPort_new [ttyUSB0] [] []))).
    reflexivity.
  - apply (proj2 (init_returns_open_or_raises_ValueError identify None CR
                    "Prolific" 9600 8 0 1 1000 false
                    (QSerialPort_new [ttyBusy] [] []))).
    + intros s. exists true. reflexivity.
    + unfold c_int. lia.
    + unfold c_int. lia.
    + unfold c_int. lia.
    + unfold c_int. lia.
Defined.

(** X9.  Given a port, construction tries that port and no other: where the
    port is busy, does not open, or is rejected by [identify], construction
    raises [ValueError] with the object not open, whatever other ports the
    host has; the given port was opened and closed again, or not opened at
    all, and no other port was touched. *)
Theorem init_with_port_does_not_search :
  forall (identify_ : M bool) (q : QSerialPortInfo) (eol_ : str)
         (manufacturer_ : string)
         (baudrate_ databits_ parity_ stopbits_ timeout_ : Z) (sync_ : bool)
         (ports : list QSerialPortInfo) (script : list (option bytes))
         (acks_ : list bool),
    keeps_channel identify_ ->
    fails identify_ q ->
    fst (__init__ identify_ (Some q) eol_ manufacturer_ baudrate_ databits_
           parity_ stopbits_ timeout_ sync_
           (QSerialPort_new ports script acks_)) =
    Raise (ValueError "Could not find serial device") /\
    isOpen (snd (__init__ identify_ (Some q) eol_ manufacturer_ baudrate_
                   databits_ parity_ stopbits_ timeout_ sync_
                   (QSerialPort_new ports script acks_))) = false /\
    portOps (snd (__init__ identify_ (Some q) eol_ manufacturer_ baudrate_
                    databits_ parity_ stopbits_ timeout_ sync_
                    (QSerialPort_new ports script acks_))) = probe_ops q.
Proof.
  intros id q e m b db pa sb t sy ports script acks_ Hk Hf.
  set (st0 :=
         set_readyRead (if sy then [] else [SlotReceive])
           (set_sync sy
              (set_buffer []
                 (set_timeout t
                    (set_line (mkLine b db pa sb)
                       (set_manufacturer m
                          (set_eol e (QSerialPort_new ports script acks_)))))))).
  destruct (setup_fails_ops id q st0 Hk eq_refl Hf) as [st1 [E [Ho Hops]]].
  assert (Hall :
    __init__ id (Some q) e m b db pa sb t sy
      (QSerialPort_new ports script acks_) =
    (Raise (ValueError "Could not find serial device"), st1)).
  { unfold __init__. rewrite !bind_modify, bind_sync_setter. fold st0.
    unfold bind, get, raise, ret. rewrite E. simpl. rewrite Ho. reflexivity. }
  rewrite Hall. simpl. repeat split; assumption.
Qed.

Lemma init_with_port_does_not_search_witness :
  fst (__init__ identify (Some ttyBusy) CR "Prolific" 9600 8 0 1 1000 false
         (QSerialPort_new [ttyBusy; ttyUSB0] [] [])) =
  Raise (ValueError "Could not find serial device") /\
  portOps (snd (__init__ identify (Some ttyBusy) CR "Prolific" 9600 8 0 1 1000
                  false (QSerialPort_new [ttyBusy; ttyUSB0] [] []))) = [].
Proof.
  assert (Hk : keeps_channel identify) by (intros s; simpl; auto).
  assert (Hf : fails identify ttyBusy) by (left; reflexivity).
  split.
  - exact (proj1 (init_with_port_does_not_search identify ttyBusy CR "Prolific"
                    9600 8 0 1 1000 false [ttyBusy; ttyUSB0] [] [] Hk Hf)).
  - exact (proj2 (proj2 (init_with_port_does_not_search identify ttyBusy CR
                    "Prolific" 9600 8 0 1 1000 false [ttyBusy; ttyUSB0] [] []
                    Hk Hf))).
Defined.

Lemma init_with_port_base :
  forall (p : QSerialPortInfo) (eol_ : str) (manufacturer_ : string)
         (baudrate_ databits_ parity_ stopbits_ timeout_ : Z) (sync_ : bool)
         (ports : list QSerialPortInfo) (script : list (option bytes))
         (acks_ : list bool),
    isBusy p = false -> opens p = true ->
    __init__ identify (Some p) eol_ manufacturer_ baudrate_ databits_ parity_
      stopbits_ timeout_ sync_ (QSerialPort_new ports script acks_) =
    (Ok tt,
     mkDevice eol_ manufacturer_
       (mkLine baudrate_ databits_ parity_ stopbits_) timeout_ [] sync_
       (Some p) (mkLine baudrate_ databits_ parity_ stopbits_) true []
       (if sync_ then [] else [SlotReceive])
       ports script acks_
       [] []
       [(DEBUG, SettingUp (systemLocation p));
        (INFO, DeviceFoundAt (systemLocation p))]
       [Opened (systemLocation p)]).
Proof.
  intros p e m b db pa sb t sy ports script acks_ Hb Hop.
  unfold __init__. rewrite !bind_modify, bind_sync_setter.
  unfold bind at 1. unfold bind at 1.
  rewrite setup_opened by (assumption || reflexivity).
  unfold at_identify, identify. reflexivity.
Qed.

(** X10.  The object the base class constructs on a given port that is
    free and opens, with the default line settings (9600 baud, 8 data bits,
    no parity, one stop bit): the arguments are stored, the port carries
    the line settings and is open, the buffer is empty, [readyRead] is
    connected to [receive] in asynchronous mode only, the log holds the two
    records of [setup], and nothing has been read, written or emitted: the
    peer's bytes are all still to come. *)
Theorem init_with_port_base_class :
  forall (p : QSerialPortInfo) (eol_ : str) (manufacturer_ : string)
         (timeout_ : Z) (sync_ : bool)
         (ports : list QSerialPortInfo) (script : list (option bytes))
         (acks_ : list bool),
    isBusy p = false -> opens p = true ->
    __init__ identify (Some p) eol_ manufacturer_ 9600 8 0 1 timeout_ sync_
      (QSerialPort_new ports script acks_) =
    (Ok tt,
     mkDevice eol_ manufacturer_ (mkLine 9600 8 0 1) timeout_ [] sync_
       (Some p) (mkLine 9600 8 0 1) true []
       (if sync_ then [] else [SlotReceive])
       ports script acks_
       [] []
       [(DEBUG, SettingUp (systemLocation p));
        (INFO, DeviceFoundAt (systemLocation p))]
       [Opened (systemLocation p)]).
Proof.
  intros p e m t sy ports script acks_ Hb Hop.
  apply init_with_port_base; assumption.
Qed.

Lemma init_with_port_base_class_witness :
  isOpen (snd (__init__ identify (Some ttyUSB0) CR "Prolific" 9600 8 0 1 1000
                 false (QSerialPort_new [ttyUSB0] [Some (text "junk")] []))) =
  true /\
  incoming (snd (__init__ identify (Some ttyUSB0) CR "Prolific" 9600 8 0 1
                   1000 false
                   (QSerialPort_new [ttyUSB0] [Some (text "junk")] []))) =
  [Some (text "junk")].
Proof.
  rewrite (init_with_port_base_class ttyUSB0 CR "Prolific" 1000 false
             [ttyUSB0] [Some (text "junk")] [] eq_refl eq_refl).
  split; reflexivity.
Defined.

Lemma probe_ops_unopened :
  forall pre,
    Forall (fun q => isBusy q = true \/ opens q = false) pre ->
    flat_map probe_ops pre = [].
Proof.
  induction pre as [|q pre IH]; intros H; [reflexivity|].
  inversion H as [|? ? Hq Hrest]; subst. simpl. rewrite (IH Hrest).
  unfold probe_ops. destruct Hq as [Hq|Hq]; rewrite Hq;
    [|rewrite orb_true_r]; reflexivity.
Qed.

(** X11.  With the [identify] of the base class, which accepts anything,
    [find] settles on the first port of the catalog that is free and opens,
    whatever is attached to it; the ports before it were never opened, so
    nothing is ever closed. *)
Theorem find_base_class_takes_first_openable :
  forall (pre : list QSerialPortInfo) (p : QSerialPortInfo)
         (post : list QSerialPortInfo) (st : QSerialDevice),
    isOpen st = false ->
    availablePorts st = pre ++ p :: post ->
    Forall (fun q => isBusy q = true \/ opens q = false) pre ->
    isBusy p = false -> opens p = true ->
    fst (find identify st) = Ok tt /\
    isOpen (snd (find identify st)) = true /\
    port (snd (find identify st)) = Some p /\
    portOps (snd (find identify st)) =
    portOps st ++ [Opened (systemLocation p)].
Proof.
  intros pre p post st Ho Hav Hpre Hb Hop.
  assert (Hk : keeps_channel identify) by (intros s; simpl; auto).
  assert (Hf : Forall (fails identify) pre).
  { apply Forall_forall. intros q Hq.
    destruct (proj1 (Forall_forall _ pre) Hpre q Hq) as [H|H];
      [left | right; left]; assumption. }
  assert (Ha : accepts identify p) by (intros s _; reflexivity).
  destruct (find_loop_first_match identify pre p post st Hk Ho Hf Hb Hop Ha)
    as [st' [E [A [B C]]]].
  rewrite (probe_ops_unopened pre Hpre) in C. simpl in C.
  unfold find, bind, get. rewrite Hav.
  replace (List.length (pre ++ p :: post) <? 1)%nat with false
    by (symmetry; apply Nat.ltb_ge; rewrite length_app; simpl; lia).
  rewrite E. simpl. auto.
Qed.

Lemma find_base_class_takes_first_openable_witness :
  port (snd (find identify
               (QSerialPort_new [ttyBusy; ttyDead; ttyUSB0; ttyUSB1] [] []))) =
  Some ttyUSB0 /\
  portOps (snd (find identify
               (QSerialPort_new [ttyBusy; ttyDead; ttyUSB0; ttyUSB1] [] []))) =
  [Opened "/dev/ttyUSB0"].
Proof.
  assert (H : Forall (fun q => isBusy q = true \/ opens q = false)
                [ttyBusy; ttyDead]).
  { apply Forall_cons; [left; reflexivity|].
    apply Forall_cons; [right; reflexivity | apply Forall_nil]. }
  destruct (find_base_class_takes_first_openable [ttyBusy; ttyDead] ttyUSB0
              [ttyUSB1]
              (QSerialPort_new [ttyBusy; ttyDead; ttyUSB0; ttyUSB1] [] [])
              eq_refl eq_refl H eq_refl eq_refl) as [_ [_ [H1 H2]]].
  split; assumption.
Defined.

(** X12.  The flush in [setup] does not fire on a port [setup] has just
    opened: right after [open] nothing is there to read, so no "Cleared
    bytes" record is logged and none of the peer's bytes is dropped.
    [identify] runs on the object [at_identify]: the port open under the
    object's four line settings, nothing read yet, the receive buffer and
    the peer's pending input as they were. *)
Theorem setup_hands_identify_unread_line :
  forall (identify_ : M bool) (q : QSerialPortInfo) (st : QSerialDevice),
    isBusy q = false -> opens q = true -> isOpen st = false ->
    setup identify_ (Some q) st =
    (found <- identify_ ;;
     if found then
       logger INFO (DeviceFoundAt (systemLocation q)) ;; ret true
     else
       close ;; logger DEBUG (DeviceNotConnectedTo (systemLocation q)) ;;
       ret false) (at_identify q st) /\
    incoming (at_identify q st) = incoming st /\
    rx (at_identify q st) = [] /\
    isOpen (at_identify q st) = true /\
    portLine (at_identify q st) = line st /\
    buffer (at_identify q st) = buffer st /\
    emitted (at_identify q st) = emitted st /\
    log (at_identify q st) =
    log st ++ [(DEBUG, SettingUp (systemLocation q))].
Proof.
  intros id q st Hb Hop Ho. split; [apply setup_opened; assumption|].
  unfold at_identify. simpl. repeat split. destruct (line st); reflexivity.
Qed.

(** Bytes that were on the line before the port was opened come first in
    what the peer sends; [setup] leaves them there. *)
Lemma setup_hands_identify_unread_line_witness :
  fst (setup identify (Some ttyUSB0)
         (QSerialPort_new [] [Some (text "junk"); Some (text "ok" ++ CR)] [])) =
  Ok true /\
  incoming (at_identify ttyUSB0
              (QSerialPort_new [] [Some (text "junk"); Some (text "ok" ++ CR)]
                 [])) =
  [Some (text "junk"); Some (text "ok" ++ CR)].
Proof.
  destruct (setup_hands_identify_unread_line identify ttyUSB0
              (QSerialPort_new [] [Some (text "junk"); Some (text "ok" ++ CR)] [])
              eq_refl eq_refl eq_refl) as [E [H _]].
  split; [rewrite E; reflexivity | exact H].
Defined.

(** ** Asynchronous mode *)

Lemma arrive_accumulates :
  forall st c d,
    readyRead st = [SlotReceive] -> rx st = [] ->
    encode (eol st) = Some d ->
    contains (buffer st ++ c) d = false ->
    arrive c st =
    (Ok tt,
     set_buffer (buffer st ++ c)
       (set_log (log st ++ [(DEBUG, DataReceived)]) st)).
Proof.
  intros st c d Hr Hx He Hc. unfold arrive. run. rewrite Hr. simpl.
  unfold bind, receive. run. rewrite Hx, He. simpl. rewrite Hc. simpl.
  destruct st; simpl in *; subst. reflexivity.
Qed.

Lemma arrive_completes :
  forall st c d s,
    readyRead st = [SlotReceive] -> rx st = [] ->
    encode (eol st) = Some d ->
    contains (buffer st ++ c) d = true ->
    decode (trimmed (buffer st ++ c)) = Some s ->
    arrive c st =
    (Ok tt,
     set_buffer []
       (set_emitted (emitted st ++ [s])
          (set_log (log st ++ [(DEBUG, DataReceived); (DEBUG, EOLReceived)])
             st))).
Proof.
  intros st c d s Hr Hx He Hc Hd. unfold arrive. run. rewrite Hr. simpl.
  unfold bind, receive. run. rewrite Hx, He. simpl. rewrite Hc. simpl.
  rewrite Hd. simpl.
  destruct st; simpl in *; subst. rewrite <- app_assoc. reflexivity.
Qed.

Lemma arrivals_cons :
  forall c cs st,
    arrivals (c :: cs) st =
    match arrive c st with
    | (Ok _, st1) => arrivals cs st1
    | (Raise e, st1) => (Raise e, st1)
    end.
Proof. reflexivity. Qed.

Lemma arrivals_reassemble :
  forall (cs : list bytes) (c : bytes) (st : QSerialDevice) (d : bytes)
         (s : str),
    readyRead st = [SlotReceive] -> rx st = [] ->
    encode (eol st) = Some d ->
    (forall k, (k < List.length (c :: cs))%nat ->
               contains (buffer st ++ List.concat (firstn k (c :: cs))) d = false) ->
    contains (buffer st ++ List.concat (c :: cs)) d = true ->
    decode (trimmed (buffer st ++ List.concat (c :: cs))) = Some s ->
    exists st',
      arrivals (c :: cs) st = (Ok tt, st') /\
      emitted st' = emitted st ++ [s] /\ buffer st' = [] /\ rx st' = [].
Proof.
  induction cs as [|c' cs IH]; intros c st d s Hr Hx He Hno Hc Hd.
  - simpl in Hc, Hd. rewrite app_nil_r in Hc, Hd.
    rewrite arrivals_cons.
    rewrite (arrive_completes st c d s Hr Hx He Hc Hd).
    eexists. split; [reflexivity|]. simpl. auto.
  - assert (H1 : contains (buffer st ++ c) d = false).
    { specialize (Hno 1%nat). simpl in Hno. rewrite app_nil_r in Hno.
      apply Hno. lia. }
    rewrite arrivals_cons.
    rewrite (arrive_accumulates st c d Hr Hx He H1).
    match goal with
    | |- context [arrivals (c' :: cs) ?s1] =>
      destruct (IH c' s1 d s) as [st' [E [A [B C]]]]
    end; simpl; try assumption.
    + intros k Hk. specialize (Hno (S k)). simpl in Hno.
      rewrite <- app_assoc. apply Hno. simpl in Hk. lia.
    + simpl in Hc. rewrite <- app_assoc. assumption.
    + simpl in Hd. rewrite <- app_assoc. assumption.
    + exists st'. simpl in A. auto.
Qed.

(** X13.  In asynchronous mode a message that reaches the port in pieces
    is put together again: where the delimiter is complete only with the
    last piece, the notifications before it only fill the buffer, and the
    last one emits [dataReady] once, with the whole message trimmed and
    decoded, and empties the buffer. *)
Theorem receive_reassembles_message :
  forall (cs : list bytes) (c : bytes) (st : QSerialDevice) (d : bytes)
         (s : str),
    readyRead st = [SlotReceive] -> rx st = [] ->
    encode (eol st) = Some d ->
    (forall k, (k < List.length (c :: cs))%nat ->
               contains (buffer st ++ List.concat (firstn k (c :: cs))) d = false) ->
    contains (buffer st ++ List.concat (c :: cs)) d = true ->
    decode (trimmed (buffer st ++ List.concat (c :: cs))) = Some s ->
    fst (arrivals (c :: cs) st) = Ok tt /\
    emitted (snd (arrivals (c :: cs) st)) = emitted st ++ [s] /\
    buffer (snd (arrivals (c :: cs) st)) = [].
Proof.
  intros cs c st d s Hr Hx He Hno Hc Hd.
  destruct (arrivals_reassemble cs c st d s Hr Hx He Hno Hc Hd)
    as [st' [E [A [B C]]]].
  rewrite E. simpl. auto.
Qed.

Lemma receive_reassembles_message_witness :
  emitted (snd (arrivals [text "he"; text "llo"; text " w" ++ CR]
                  (session CR false []))) = [text "hello w"].
Proof.
  refine (proj1 (proj2 (receive_reassembles_message
            [text "llo"; text " w" ++ CR] (text "he") (session CR false [])
            CR (text "hello w") eq_refl eq_refl eq_refl _ eq_refl eq_refl))).
  intros [|[|[|k]]] Hk; try reflexivity. simpl in Hk. lia.
Defined.

Lemma contains_nil_hay :
  forall d : bytes, d <> [] -> contains [] d = false.
Proof. intros [|x d] H; [contradiction | reflexivity]. Qed.

(** The loop of [getData] while [receive] is connected: every complete
    message that arrives during a wait is taken by [receive] and emitted,
    the buffer stays empty, and the loop goes on to the first silence. *)
Lemma while_getData_async :
  forall (d : bytes) (rest : list (option bytes)) (msgs : list bytes)
         (strs : list str) (n : nat) (st : QSerialDevice),
    isOpen st = true -> readyRead st = [SlotReceive] -> rx st = [] ->
    buffer st = [] ->
    encode (eol st) = Some d -> d <> [] ->
    incoming st = map Some msgs ++ rest -> quiet rest ->
    Forall2 (message d) msgs strs ->
    (List.length (incoming st) < n)%nat ->
    exists st',
      while_ n getData_cond getData_body st = (Ok tt, st') /\
      buffer st' = [] /\ emitted st' = emitted st ++ strs /\
      incoming st' = tl rest.
Proof.
  intros d rest msgs. induction msgs as [|m msgs IH];
    intros strs n st Ho Hr Hx Hb He Hd Hi Hq HF Hn;
    (destruct n as [|n]; [lia|]);
    rewrite while_S; unfold getData_cond, getData_body, waitForReadyRead;
    run; rewrite He; simpl; rewrite Hb, (contains_nil_hay d Hd); simpl;
    rewrite Ho, Hi; simpl.
  - inversion HF; subst. simpl in Hi.
    destruct rest as [|[bs|] r]; simpl in Hq; [|contradiction|]; simpl;
      eexists; (split; [reflexivity|]); simpl; rewrite app_nil_r; auto.
  - inversion HF as [|? s ? strs' [Hc Hs] HF']; subst.
    match goal with
    | |- context [arrive m ?s0] =>
      rewrite (arrive_completes s0 m d s)
        by (simpl; try rewrite Hb; assumption)
    end.
    simpl.
    match goal with
    | |- context [while_ n _ _ ?s1] =>
      destruct (IH strs' n s1) as [st' [E [A [B C]]]]
    end; simpl; try assumption; try reflexivity.
    + rewrite Hi in Hn. simpl in Hn. lia.
    + exists st'. split; [assumption|]. simpl in B.
      rewrite <- app_assoc in B. auto.
Qed.

(** X14.  [getData] called in asynchronous mode loses its messages to the
    signal: with [receive] connected and nothing buffered, every complete
    message the peer sends during the call is emitted through [dataReady]
    by [receive], which empties the buffer, so [getData] goes on waiting
    until the first silence and then returns the empty string. *)
Theorem getData_async_returns_empty :
  forall (st : QSerialDevice) (d : bytes) (msgs : list bytes)
         (strs : list str) (rest : list (option bytes)),
    isOpen st = true -> readyRead st = [SlotReceive] -> rx st = [] ->
    buffer st = [] ->
    encode (eol st) = Some d -> d <> [] ->
    incoming st = map Some msgs ++ rest -> quiet rest ->
    Forall2 (message d) msgs strs ->
    fst (getData st) = Ok [] /\
    emitted (snd (getData st)) = emitted st ++ strs /\
    buffer (snd (getData st)) = [] /\
    incoming (snd (getData st)) = tl rest.
Proof.
  intros st d msgs strs rest Ho Hr Hx Hb He Hd Hi Hq HF.
  destruct (while_getData_async d rest msgs strs
              (S (List.length (incoming st))) st
              Ho Hr Hx Hb He Hd Hi Hq HF (Nat.lt_succ_diag_r _))
    as [st' [E [A [B C]]]].
  unfold getData. run. rewrite E. simpl. rewrite A. simpl. auto.
Qed.

Lemma getData_async_returns_empty_witness :
  fst (getData (session CR false [Some (text "pong" ++ CR)])) = Ok [] /\
  emitted (snd (getData (session CR false [Some (text "pong" ++ CR)]))) =
  [text "pong"].
Proof.
  assert (H : Forall2 (message CR) [text "pong" ++ CR] [text "pong"]).
  { apply Forall2_cons; [split; reflexivity | apply Forall2_nil]. }
  assert (Hd : CR <> []) by discriminate.
  destruct (getData_async_returns_empty
              (session CR false [Some (text "pong" ++ CR)]) CR
              [text "pong" ++ CR] [text "pong"] []
              eq_refl eq_refl eq_refl eq_refl eq_refl Hd eq_refl I H)
    as [H1 [H2 _]].
  split; assumption.
Defined.

(** ** The demonstration window *)

Lemma py_index_nil : forall (A : Type) (i : Z), py_index (@nil A) i = None.
Proof.
  intros A i. unfold py_index. simpl.
  destruct (Z.ltb_spec i 0); simpl; [reflexivity|].
  destruct (Z.leb_spec 0 i); [reflexivity | lia].
Qed.

(** X15.  On a host without serial ports [Main] logs its warning and then
    fails with [IndexError], whatever port number it was given: no device
    object is constructed and nothing is printed. *)
Theorem Main_without_ports_raises_IndexError :
  forall (number : Z) (script : list (option bytes)) (acks_ : list bool),
    Main_init number [] script acks_ =
    (Some IndexError, [LogWarning "No serial ports"],
     QSerialPort_new [] script acks_).
Proof.
  intros number script acks_. unfold Main_init.
  rewrite py_index_nil. reflexivity.
Qed.

(** X16.  [Main] never sends its query: it constructs the device in the
    default, asynchronous, mode, so on a port that is free and opens its
    [handshake('VERSION')] is refused.  It prints the port's name, "open"
    and an empty line; nothing is written to the device, none of the peer's
    bytes is read, and the log ends with the error of [handshake]. *)
Theorem Main_handshake_is_refused :
  forall (number : Z) (ports : list QSerialPortInfo) (p : QSerialPortInfo)
         (script : list (option bytes)) (acks_ : list bool),
    py_index ports number = Some p ->
    isBusy p = false -> opens p = true ->
    exists st : QSerialDevice,
      Main_init number ports script acks_ =
      (None,
       [Print (text (systemLocation p)); Print (text "open"); Print []],
       st) /\
      isOpen st = true /\ port st = Some p /\ _sync st = false /\
      written st = [] /\ incoming st = script /\
      last (log st) (DEBUG, DataReceived) = (ERROR, CannotHandshakeAsync).
Proof.
  intros number ports p script acks_ Hi Hb Hop.
  unfold Main_init. rewrite Hi.
  assert (Hlen : (List.length ports <? 1)%nat = false).
  { destruct ports as [|q ports]; [|reflexivity].
    rewrite py_index_nil in Hi. discriminate. }
  rewrite Hlen.
  rewrite (init_with_port_base p CR "Prolific" 9600 8 0 1 1000 false
             ports script acks_ Hb Hop).
  cbn [isOpen]. unfold handshake. run.
  eexists. split; [reflexivity|]. simpl.
  repeat split.
Qed.

Lemma Main_handshake_is_refused_witness :
  fst (fst (Main_init (-1) [ttyBusy; ttyUSB0] [Some (text "v1.0" ++ CR)] [])) =
  None /\
  snd (fst (Main_init (-1) [ttyBusy; ttyUSB0] [Some (text "v1.0" ++ CR)] [])) =
  [Print (text "/dev/ttyUSB0"); Print (text "open"); Print []].
Proof.
  destruct (Main_handshake_is_refused (-1) [ttyBusy; ttyUSB0] ttyUSB0
              [Some (text "v1.0" ++ CR)] [] eq_refl eq_refl eq_refl)
    as [st [E _]].
  rewrite E. split; reflexivity.
Defined.

(** ** Synchronous reading and the signal *)

Lemma getData_body_sync_quiet :
  forall st,
    readyRead st = [] ->
    emitted (snd (getData_body st)) = emitted st /\
    readyRead (snd (getData_body st)) = [].
Proof.
  intros st Hr. unfold getData_body, waitForReadyRead, arrive. run.
  destruct (isOpen st); simpl; [|auto].
  destruct (incoming st) as [|[bs|] r]; simpl; auto.
  rewrite Hr. simpl. auto.
Qed.

Lemma while_getData_sync_quiet :
  forall n st,
    readyRead st = [] ->
    emitted (snd (while_ n getData_cond getData_body st)) = emitted st.
Proof.
  induction n as [|n IH]; intros st Hr; [reflexivity|].
  rewrite while_S. unfold bind.
  pose proof (getData_cond_state st) as Hc.
  destruct (getData_cond st) as [[c|e] st0]; simpl in Hc; subst st0;
    [|reflexivity].
  destruct c; [|reflexivity].
  destruct (getData_body_sync_quiet st Hr) as [He Hr'].
  destruct (getData_body st) as [[go|e] st1]; simpl in *; [|assumption].
  destruct go; [|assumption].
  rewrite (IH st1 Hr'). assumption.
Qed.

(** X17.  With nothing connected to [readyRead], as the synchronous mode
    leaves it, [getData] never emits [dataReady]: what it reads comes back
    as its return value only. *)
Theorem getData_sync_never_emits :
  forall st : QSerialDevice,
    readyRead st = [] ->
    emitted (snd (getData st)) = emitted st.
Proof.
  intros st Hr. unfold getData. run.
  pose proof (while_getData_sync_quiet (S (List.length (incoming st))) st Hr)
    as H.
  destruct (while_ (S (List.length (incoming st))) getData_cond getData_body st)
    as [[u|e] st1]; simpl in *; [|assumption].
  destruct (decode (trimmed (buffer st1))); simpl; assumption.
Qed.

Lemma getData_sync_never_emits_witness :
  emitted (snd (getData (session CR true [Some (text "pong" ++ CR)]))) = [].
Proof.
  exact (getData_sync_never_emits
           (session CR true [Some (text "pong" ++ CR)]) eq_refl).
Defined.

(** ** A catalog without the device *)

Lemma find_loop_all_fail_ops :
  forall id ports st,
    keeps_channel id -> isOpen st = false -> Forall (fails id) ports ->
    exists st',
      find_loop id ports st = (Ok tt, st') /\ isOpen st' = false /\
      portOps st' = portOps st ++ flat_map probe_ops ports.
Proof.
  induction ports as [|q ports IH]; intros st Hk Ho Hf;
    cbn [find_loop flat_map].
  - exists st. rewrite app_nil_r. auto.
  - inversion Hf as [|? ? Hq Hrest]; subst.
    destruct (setup_fails_ops id q st Hk Ho Hq) as [st1 [E1 [Ho1 Hops1]]].
    unfold bind. rewrite E1.
    destruct (IH st1 Hk Ho1 Hrest) as [st2 [E2 [A B]]].
    exists st2. rewrite B, Hops1, <- app_assoc. auto.
Qed.

(** X18.  Where no port of the catalog holds the device, [find] has tried
    every port once, in the order of the catalog, and returns with the
    object not open: each port that is free and opens was opened and closed
    again before the next one was tried, the others were not opened. *)
Theorem find_tries_each_port_once :
  forall (identify_ : M bool) (st : QSerialDevice),
    keeps_channel identify_ ->
    isOpen st = false ->
    Forall (fails identify_) (availablePorts st) ->
    fst (find identify_ st) = Ok tt /\
    isOpen (snd (find identify_ st)) = false /\
    portOps (snd (find identify_ st)) =
    portOps st ++ flat_map probe_ops (availablePorts st).
Proof.
  intros id st Hk Ho Hf. unfold find, bind, get.
  destruct (availablePorts st) as [|q ports] eqn:Ea.
  - simpl. rewrite app_nil_r. auto.
  - replace (List.length (q :: ports) <? 1)%nat with false by reflexivity.
    destruct (find_loop_all_fail_ops id (q :: ports) st Hk Ho Hf)
      as [st' [E [A B]]].
    rewrite E. simpl. auto.
Qed.

Lemma find_tries_each_port_once_witness :
  portOps (snd (find (identify_at "/dev/ttyUSB9")
                  (QSerialPort_new [ttyUSB0; ttyBusy; ttyUSB1] [] []))) =
  [Opened "/dev/ttyUSB0"; Closed "/dev/ttyUSB0";
   Opened "/dev/ttyUSB1"; Closed "/dev/ttyUSB1"].
Proof.
  refine (proj2 (proj2 (find_tries_each_port_once (identify_at "/dev/ttyUSB9")
            (QSerialPort_new [ttyUSB0; ttyBusy; ttyUSB1] [] [])
            _ eq_refl _))).
  - intros s. simpl. auto.
  - apply Forall_cons;
      [right; right; intros s H; unfold identify_at; rewrite H; reflexivity|].
    apply Forall_cons; [left; reflexivity|].
    apply Forall_cons;
      [right; right; intros s H; unfold identify_at; rewrite H; reflexivity|].
    apply Forall_nil.
Defined.
